(** * RPLidarProvider: scan transform, corridor pruning and movement string

    A shallow embedding of [src/providers/rplidar_provider.py].

    Python floats are idealised as real numbers: [math.sqrt], [math.cos],
    [math.sin] and [math.pi] are the functions and the constant of the
    Standard Library's reals, and the calls into numpy and into the
    [bezier] package are modelled by what they compute on exact numbers.
    A numpy array of rows is a list of rows; a raised exception is [None]. *)

From Stdlib Require Import Reals Lra Lia List String Bool Arith Permutation.
From Stdlib Require Import Sorted.
Import ListNotations.

Open Scope R_scope.

(** ** Comparisons of floats, as booleans *)

Definition Rlt_b (a b : R) : bool := if Rlt_dec a b then true else false.
Definition Rle_b (a b : R) : bool := if Rle_dec a b then true else false.
Definition Rgt_b (a b : R) : bool := if Rgt_dec a b then true else false.
Definition Rge_b (a b : R) : bool := if Rge_dec a b then true else false.

(** ** The numpy functions the provider calls *)

Module Np.

(** [np.linspace(start, stop, num)]: [num] equally spaced values, both
    ends included. *)
Definition linspace (start stop : R) (num : nat) : list R :=
  map (fun k => start + IZR (Z.of_nat k) * ((stop - start) / IZR (Z.of_nat (num - 1))))
      (seq 0 num).

(** [np.arange(start, stop, step)] on floats: [ceil((stop - start) / step)]
    values [start + i * step]; a zero step raises. *)
Definition arange (start stop step : R) : option (list R) :=
  if Req_dec_T step 0 then None
  else Some (map (fun i => start + IZR (Z.of_nat i) * step)
                 (seq 0 (Z.to_nat (Zceil ((stop - start) / step))))).

(** [np.unique]: the sorted values, each once. *)
Fixpoint insert_unique (a : nat) (l : list nat) : list nat :=
  match l with
  | [] => [a]
  | b :: t =>
      if (a <? b)%nat then a :: b :: t
      else if (a =? b)%nat then b :: t
      else b :: insert_unique a t
  end.

Definition unique (l : list nat) : list nat := fold_right insert_unique [] l.

(** [np.setdiff1d(ar1, ar2)]: the sorted, unique values of [ar1] that are
    not in [ar2]. *)
Definition setdiff1d (ar1 ar2 : list nat) : list nat :=
  filter (fun a => negb (existsb (Nat.eqb a) ar2)) (unique ar1).

(** [a[a[:, 2].argsort()]]: the rows in ascending order of their key.
    numpy's default sort does not fix the order of rows with equal keys;
    the model inserts each row before the first row with a larger or
    equal key. *)
Fixpoint insert_by {A : Type} (key : A -> R) (a : A) (l : list A) : list A :=
  match l with
  | [] => [a]
  | b :: t => if Rle_b (key a) (key b) then a :: b :: t else b :: insert_by key a t
  end.

Definition sort_by {A : Type} (key : A -> R) (l : list A) : list A :=
  fold_right (insert_by key) [] l.

(** [np.array(rows).ndim]: an empty list gives a one-dimensional array of
    shape (0,), a non-empty list of rows a two-dimensional one. *)
Definition ndim {A : Type} (rows : list A) : nat :=
  match rows with [] => 1 | _ :: _ => 2 end.

End Np.

(** ** The Bezier curves of the [bezier] package *)

Module Bezier.

(** [bezier.Curve(nodes, degree)]: [nodes] has one row per dimension and
    one column per control point. *)
Record Curve := { nodes : list (list R); degree : nat }.

(** One round of de Casteljau's scheme on a row of control values. *)
Fixpoint lerp_adjacent (s : R) (l : list R) : list R :=
  match l with
  | a :: (b :: _) as tl => ((1 - s) * a + s * b) :: lerp_adjacent s tl
  | _ => []
  end.

Fixpoint casteljau (rounds : nat) (s : R) (l : list R) : R :=
  match rounds with
  | O => hd 0 l
  | S r => casteljau r s (lerp_adjacent s l)
  end.

(** [curve.evaluate_multi(s_vals)]: one row per dimension, one column per
    parameter value. *)
Definition evaluate_multi (c : Curve) (s_vals : list R) : list (list R) :=
  map (fun row => map (fun s => casteljau (degree c) s row) s_vals) (nodes c).

End Bezier.

(** ** Configuration and published state *)

Record Config := {
  half_width_robot : R;
  angles_blanked : list (R * R);
  max_relevant_distance : R;
  sensor_mounting_angle : R;
  use_zenoh : bool;
  simple_paths : bool
}.

(** One row [x, y, angle, d_m] of the transformed array. *)
Definition Row : Type := R * R * R * R.

Definition row_x (r : Row) : R := fst (fst (fst r)).
Definition row_y (r : Row) : R := snd (fst (fst r)).
Definition row_angle (r : Row) : R := snd (fst r).
Definition row_d (r : Row) : R := snd r.

(** The attributes of the provider that change after construction; the
    three published ones and the angle cache start as [None]. *)
Record State := {
  _raw_scan : option (list Row);
  _lidar_string : option string;
  _valid_paths : option (list nat);
  angles : option (list R);
  angles_final : option (list R)
}.

Definition initial_state : State :=
  {| _raw_scan := None; _lidar_string := None; _valid_paths := None;
     angles := None; angles_final := None |}.

(** The message of a [sensor_msgs.LaserScan] as far as the provider reads it. *)
Record LaserScan := {
  angle_min : R;
  angle_max : R;
  angle_increment : R;
  ranges : list R
}.

(** ** [_init_path_planning] *)

Definition quadratic (xs ys : list R) : Bezier.Curve :=
  {| Bezier.nodes := [xs; ys]; Bezier.degree := 2 |}.

Definition curves : list Bezier.Curve :=
  [ quadratic [0.0; -0.3; -0.75] [0.0; 0.5; 0.40];
    quadratic [0.0; -0.3; -0.70] [0.0; 0.6; 0.70];
    quadratic [0.0; -0.2; -0.60] [0.0; 0.7; 0.90];
    quadratic [0.0; -0.1; -0.35] [0.0; 0.7; 1.03];
    quadratic [0.0; 0.0; 0.00] [0.0; 0.5; 1.05];
    quadratic [0.0; 0.1; 0.35] [0.0; 0.7; 1.03];
    quadratic [0.0; 0.2; 0.60] [0.0; 0.7; 0.90];
    quadratic [0.0; 0.3; 0.70] [0.0; 0.6; 0.70];
    quadratic [0.0; 0.3; 0.75] [0.0; 0.5; 0.40];
    quadratic [0.0; 0.0; 0.00] [0.0; -0.5; -1.05] ].

Definition s_vals : list R := Np.linspace 0.0 1.0 10.

(** [pairs = list(zip(cp[0], cp[1]))] for one curve. *)
Definition pairs_of (curve : Bezier.Curve) : list (R * R) :=
  let cp := Bezier.evaluate_multi curve s_vals in
  combine (nth 0 cp []) (nth 1 cp []).

Definition pp : list (list (R * R)) := map pairs_of curves.

(** ** [_transform_coordinates] *)

(** The blanking loop: [reflection] becomes true at the first range that
    holds the angle. *)
Fixpoint reflection (blanked : list (R * R)) (angle : R) : bool :=
  match blanked with
  | [] => false
  | b :: rest =>
      if Rge_b angle (fst b) && Rle_b angle (snd b) then true
      else reflection rest angle
  end.

(** The angle after the mounting offset, the wrap and the shift by 180. *)
Definition robot_angle (cfg : Config) (angle : R) : R :=
  let angle := angle + sensor_mounting_angle cfg in
  let angle :=
    if Rge_b angle 360.0 then angle - 360.0
    else if Rlt_b angle 0.0 then 360.0 + angle
    else angle in
  angle - 180.0.

(** The body of the loop for one reading: [None] is [continue]. *)
Definition transform_reading (cfg : Config) (reading : R * R) : option Row :=
  let d_m := snd reading in
  if Rgt_b d_m (max_relevant_distance cfg) then None
  else
    let angle := robot_angle cfg (fst reading) in
    if reflection (angles_blanked cfg) angle then None
    else
      let a_rad := (angle + 180.0) * PI / 180.0 in
      let v1 := d_m * cos a_rad in
      let v2 := d_m * sin a_rad in
      let x := -1 * v2 in
      let y := -1 * v1 in
      Some (x, y, angle, d_m).

Fixpoint _transform_coordinates (cfg : Config) (data : list (R * R)) : list Row :=
  match data with
  | [] => []
  | reading :: rest =>
      match transform_reading cfg reading with
      | None => _transform_coordinates cfg rest
      | Some row => row :: _transform_coordinates cfg rest
      end
  end.

(** ** [_categorize_paths] and [_generate_movement_string] *)

Record Buckets := {
  turn_left : list nat;
  advance : list nat;
  turn_right : list nat;
  retreat : list nat
}.

Definition no_buckets : Buckets :=
  {| turn_left := []; advance := []; turn_right := []; retreat := [] |}.

Definition categorize_one (b : Buckets) (p : nat) : Buckets :=
  if (p <? 4)%nat then
    {| turn_left := turn_left b ++ [p]; advance := advance b;
       turn_right := turn_right b; retreat := retreat b |}
  else if (p =? 4)%nat then
    {| turn_left := turn_left b; advance := advance b ++ [p];
       turn_right := turn_right b; retreat := retreat b |}
  else if (p <? 9)%nat then
    {| turn_left := turn_left b; advance := advance b;
       turn_right := turn_right b ++ [p]; retreat := retreat b |}
  else if (p =? 9)%nat then
    {| turn_left := turn_left b; advance := advance b;
       turn_right := turn_right b; retreat := retreat b ++ [p] |}
  else b.

Definition _categorize_paths (possible_paths : list nat) : Buckets * list nat :=
  let ppl := possible_paths in
  (fold_left categorize_one ppl no_buckets, ppl).

Definition surrounded_message : string :=
  "You are surrounded by objects and cannot safely move in any direction. DO NOT MOVE.".

Definition waiting_message : string :=
  "You might be surrounded by objects and cannot safely move in any direction. DO NOT MOVE.".

Definition add_if (c : bool) (s extra : string) : string :=
  if c then (s ++ extra)%string else s.

Definition _generate_movement_string (cfg : Config) (b : Buckets) (ppl : list nat)
  : string :=
  if (List.length ppl =? 0)%nat then surrounded_message
  else
    let return_string := "The safe movement directions are: {"%string in
    let return_string :=
      if use_zenoh cfg then
        if (0 <? List.length (advance b))%nat
        then (return_string ++ "'turn left', 'turn right', 'move forwards', ")%string
        else (return_string ++ "'turn left', 'turn right', ")%string
      else
        let s := add_if (0 <? List.length (turn_left b))%nat return_string "'turn left', " in
        let s := add_if (0 <? List.length (advance b))%nat s "'move forwards', " in
        let s := add_if (0 <? List.length (turn_right b))%nat s "'turn right', " in
        add_if (0 <? List.length (retreat b))%nat s "'move back', " in
    (return_string ++ "'stand still'}. ")%string.

(** ** [_process] *)

(** [dist < self.half_width_robot] for one scan point and one sample point. *)
Definition too_close (hw x y : R) (point : R * R) : bool :=
  let p1 := x - fst point in
  let p2 := y - snd point in
  let dist := sqrt (p1 * p1 + p2 * p2) in
  Rlt_b dist hw.

(** The innermost loop, over the sample points of [apath]: the first point
    that is too close removes [apath] and breaks. *)
Fixpoint check_path (hw x y : R) (apath : nat) (points : list (R * R))
    (possible_paths : list nat) : list nat :=
  match points with
  | [] => possible_paths
  | point :: rest =>
      if too_close hw x y point then Np.setdiff1d possible_paths [apath]
      else check_path hw x y apath rest possible_paths
  end.

(** The loop [for apath in possible_paths]: it runs over the array bound to
    the name when the loop starts ([iter]), while the assignments inside
    rebind the name ([possible_paths]). [self.pp[apath]] raises out of
    range. *)
Fixpoint check_paths (hw x y : R) (table : list (list (R * R)))
    (iter possible_paths : list nat) : option (list nat) :=
  match iter with
  | [] => Some possible_paths
  | apath :: rest =>
      match nth_error table apath with
      | None => None
      | Some points =>
          check_paths hw x y table rest (check_path hw x y apath points possible_paths)
      end
  end.

(** The loop over the scan points, [for x, y, d in list(zip(X, Y, D))]. *)
Fixpoint check_collisions (hw : R) (table : list (list (R * R)))
    (rows : list Row) (possible_paths : list nat) : option (list nat) :=
  match rows with
  | [] => Some possible_paths
  | row :: rest =>
      match check_paths hw (row_x row) (row_y row) table possible_paths possible_paths with
      | None => None
      | Some remaining => check_collisions hw table rest remaining
      end
  end.

Definition all_paths : list nat := [0; 1; 2; 3; 4; 5; 6; 7; 8; 9]%nat.

Definition starting_paths (cfg : Config) : list nat :=
  if simple_paths cfg then [4%nat] else all_paths.

(** What one pass computes before it publishes. *)
Record Snapshot := {
  raw_scan : list Row;
  lidar_string : string;
  valid_paths : list nat
}.

(** Lines 340 to 362 of [_process]: the sort and the collision loops, which
    run only on a two-dimensional array. The first component is the array
    as it is afterwards. *)
Definition prune (hw : R) (array : list Row) (possible_paths : list nat)
  : list Row * option (list nat) :=
  if (1 <? Np.ndim array)%nat then
    let array := Np.sort_by row_angle array in
    (array, check_collisions hw pp array possible_paths)
  else (array, Some possible_paths).

(** Lines 335 to 366 of [_process], from the transformed array on. *)
Definition process_array (cfg : Config) (array : list Row) : option Snapshot :=
  let possible_paths := starting_paths cfg in
  let '(array, pruned) := prune (half_width_robot cfg) array possible_paths in
  match pruned with
  | None => None
  | Some possible_paths =>
      let '(buckets, ppl) := _categorize_paths possible_paths in
      let return_string := _generate_movement_string cfg buckets ppl in
      Some {| raw_scan := array; lidar_string := return_string; valid_paths := ppl |}
  end.

(** One assignment to a published attribute. *)
Inductive Store :=
| StoreRawScan (array : list Row)
| StoreLidarString (s : string)
| StoreValidPaths (ppl : list nat).

Definition exec_store (st : State) (w : Store) : State :=
  match w with
  | StoreRawScan array =>
      {| _raw_scan := Some array; _lidar_string := _lidar_string st;
         _valid_paths := _valid_paths st;
         angles := angles st; angles_final := angles_final st |}
  | StoreLidarString s =>
      {| _raw_scan := _raw_scan st; _lidar_string := Some s;
         _valid_paths := _valid_paths st;
         angles := angles st; angles_final := angles_final st |}
  | StoreValidPaths ppl =>
      {| _raw_scan := _raw_scan st; _lidar_string := _lidar_string st;
         _valid_paths := Some ppl;
         angles := angles st; angles_final := angles_final st |}
  end.

(** The three assignments that end [_process], in the order of the source. *)
Definition publish (snap : Snapshot) : list Store :=
  [ StoreRawScan (raw_scan snap);
    StoreLidarString (lidar_string snap);
    StoreValidPaths (valid_paths snap) ].

Definition process_snapshot (cfg : Config) (data : list (R * R)) : option Snapshot :=
  process_array cfg (_transform_coordinates cfg data).

Definition _process (cfg : Config) (st : State) (data : list (R * R)) : option State :=
  match process_snapshot cfg data with
  | None => None
  | Some snap => Some (fold_left exec_store (publish snap) st)
  end.

(** ** [_preprocess_zenoh] and [_preprocess_serial] *)

Definition is_falsy {A : Type} (l : option (list A)) : bool :=
  match l with None | Some [] => true | Some (_ :: _) => false end.

Definition _preprocess_zenoh (cfg : Config) (st : State) (scan : option LaserScan)
  : option State :=
  match scan with
  | None =>
      Some {| _raw_scan := Some []; _lidar_string := Some waiting_message;
              _valid_paths := Some [];
              angles := angles st; angles_final := angles_final st |}
  | Some scan =>
      let cached :=
        if is_falsy (angles st) then
          match Np.arange (angle_min scan) (angle_max scan) (angle_increment scan) with
          | None => None
          | Some steps =>
              let a := map (fun x => 360.0 * (x + PI) / (2 * PI)) steps in
              Some {| _raw_scan := _raw_scan st; _lidar_string := _lidar_string st;
                      _valid_paths := _valid_paths st;
                      angles := Some a; angles_final := Some (rev a) |}
          end
        else Some st in
      match cached with
      | None => None
      | Some st =>
          match angles_final st with
          | None => None
          | Some final => _process cfg st (combine final (ranges scan))
          end
      end
  end.


(** * Notions used in the statements *)

(** ** Geometry *)

(** The Euclidean distance that [_process] computes between a scan point
    and a sample point. *)
Definition distance (x y : R) (point : R * R) : R :=
  sqrt ((x - fst point) * (x - fst point) + (y - snd point) * (y - snd point)).

(** Some sample point of corridor [c] is too close to the scan point. *)
Definition hit_by (hw : R) (table : list (list (R * R))) (x y : R) (c : nat) : bool :=
  existsb (too_close hw x y) (nth c table []).

(** Some scan point is too close to some sample point of corridor [c]. *)
Definition path_hit (hw : R) (table : list (list (R * R))) (rows : list Row)
    (c : nat) : bool :=
  existsb (fun row => hit_by hw table (row_x row) (row_y row) c) rows.

(** Some row of the array is closer than [hw] to some sample point of
    corridor [c]. *)
Definition obstructed (hw : R) (array : list Row) (c : nat) : Prop :=
  exists row point,
    In row array /\ In point (nth c pp []) /\
    distance (row_x row) (row_y row) point < hw.

(** The corridors of the starting set that no row of the array hits. *)
Definition surviving (cfg : Config) (array : list Row) : list nat :=
  filter (fun c => negb (path_hit (half_width_robot cfg) pp array c)) (starting_paths cfg).

(** The array that a pass publishes: sorted when it has rows. *)
Definition sorted_array (array : list Row) : list Row :=
  if (1 <? Np.ndim array)%nat then Np.sort_by row_angle array else array.

(** Every id of the list is an index into the table. *)
Definition in_range (table : list (list (R * R))) (l : list nat) : Prop :=
  Forall (fun c => (c < List.length table)%nat) l.

(** ** Configurations *)

(** The defaults of [__init__]. *)
Definition default_config : Config :=
  {| half_width_robot := 0.20; angles_blanked := [];
     max_relevant_distance := 1.1; sensor_mounting_angle := 180.0;
     use_zenoh := false; simple_paths := false |}.

(** [simple_paths] alone, with the other defaults of [__init__]. *)
Definition simple_config : Config :=
  {| half_width_robot := 0.20; angles_blanked := [];
     max_relevant_distance := 1.1; sensor_mounting_angle := 180.0;
     use_zenoh := false; simple_paths := true |}.

(** Both flags set, as for the robot that the comments of the source name. *)
Definition zenoh_simple_config : Config :=
  {| half_width_robot := 0.20; angles_blanked := [];
     max_relevant_distance := 1.1; sensor_mounting_angle := 180.0;
     use_zenoh := true; simple_paths := true |}.

(** One blanked range, otherwise the defaults of [__init__]. *)
Definition blanking_config : Config :=
  {| half_width_robot := 0.20; angles_blanked := [(-10, 10)];
     max_relevant_distance := 1.1; sensor_mounting_angle := 180.0;
     use_zenoh := false; simple_paths := false |}.

(** ** Strings *)

(** The phrase occurs in the string. *)
Definition lists (s phrase : string) : bool :=
  match index 0 phrase s with Some _ => true | None => false end.

(** The two strings of the [use_zenoh] branch. *)
Definition turns_and_forwards : string :=
  "The safe movement directions are: {'turn left', 'turn right', 'move forwards', 'stand still'}. ".

Definition turns_only : string :=
  "The safe movement directions are: {'turn left', 'turn right', 'stand still'}. ".

(** The string of the general branch when only the retreat bucket is empty. *)
Definition without_move_back : string :=
  "The safe movement directions are: {'turn left', 'move forwards', 'turn right', 'stand still'}. ".

(** ** The worker thread beside a reader thread *)

(** What a reader gets from one of the three properties [raw_scan],
    [lidar_string] and [valid_paths]; each returns its attribute. *)
Inductive Observation :=
| GotRawScan (v : option (list Row))
| GotLidarString (v : option string)
| GotValidPaths (v : option (list nat)).

(** The worker thread performs its next assignment, or the reader thread
    calls one property. The source takes no lock, so the calls of a reader
    can fall anywhere between the assignments. *)
Inductive Event := Assign | GetRawScan | GetLidarString | GetValidPaths.

(** The shared attributes, the assignments the worker has still to perform
    in its current pass, and what the reader has got so far. *)
Record System := {
  shared : State;
  pending : list Store;
  seen : list Observation
}.

Definition step (sys : System) (e : Event) : System :=
  match e with
  | Assign =>
      match pending sys with
      | [] => sys
      | w :: rest =>
          {| shared := exec_store (shared sys) w; pending := rest; seen := seen sys |}
      end
  | GetRawScan =>
      {| shared := shared sys; pending := pending sys;
         seen := seen sys ++ [GotRawScan (_raw_scan (shared sys))] |}
  | GetLidarString =>
      {| shared := shared sys; pending := pending sys;
         seen := seen sys ++ [GotLidarString (_lidar_string (shared sys))] |}
  | GetValidPaths =>
      {| shared := shared sys; pending := pending sys;
         seen := seen sys ++ [GotValidPaths (_valid_paths (shared sys))] |}
  end.

(** The system after the events of a schedule, in order. *)
Definition run (sys : System) (schedule : list Event) : System :=
  fold_left step schedule sys.

(** The worker is about to publish [snap] over the state [st]. *)
Definition publishing (st : State) (snap : Snapshot) : System :=
  {| shared := st; pending := publish snap; seen := [] |}.

(** The observation is the value of its attribute in [st]. *)
Definition reads_from (st : State) (o : Observation) : Prop :=
  match o with
  | GotRawScan v => v = _raw_scan st
  | GotLidarString v => v = _lidar_string st
  | GotValidPaths v => v = _valid_paths st
  end.

Definition is_read (e : Event) : bool :=
  match e with Assign => false | _ => true end.

(** * Further functions of the provider *)

(** ** [get_dimensions] *)

(** A Python value as far as [get_dimensions] looks at it: a list of
    values, or anything that is not a list. *)
#[warnings="-register-all"] Inductive PyValue :=
| PyOther
| PyList (items : list PyValue).

Fixpoint get_dimensions (list_ : PyValue) : list nat :=
  match list_ with
  | PyOther => []
  | PyList [] => [0%nat]
  | PyList ((first :: _) as items) => List.length items :: get_dimensions first
  end.

(** The nested list with [n] copies of the next level at each level. *)
Fixpoint nested (dims : list nat) : PyValue :=
  match dims with
  | [] => PyOther
  | n :: rest => PyList (repeat (nested rest) n)
  end.

(** The dimensions up to the first zero, that zero included. *)
Fixpoint through_first_zero (dims : list nat) : list nat :=
  match dims with
  | [] => []
  | O :: _ => [0%nat]
  | n :: rest => n :: through_first_zero rest
  end.

(** ** The static helpers *)

(** [transform_coordinates_static], lines 539 to 584. *)
Fixpoint transform_coordinates_static (data : list (R * R))
    (max_relevant_distance sensor_mounting_angle : R) (angles_blanked : list (R * R))
  : list Row :=
  match data with
  | [] => []
  | reading :: rest =>
      let later :=
        transform_coordinates_static rest max_relevant_distance sensor_mounting_angle
          angles_blanked in
      let angle := fst reading in
      let d_m := snd reading in
      if Rgt_b d_m max_relevant_distance then later
      else
        let angle := angle + sensor_mounting_angle in
        let angle :=
          if Rge_b angle 360.0 then angle - 360.0
          else if Rlt_b angle 0.0 then 360.0 + angle
          else angle in
        let angle := angle - 180.0 in
        if reflection angles_blanked angle then later
        else
          let a_rad := (angle + 180.0) * PI / 180.0 in
          let v1 := d_m * cos a_rad in
          let v2 := d_m * sin a_rad in
          let x := -1 * v2 in
          let y := -1 * v1 in
          (x, y, angle, d_m) :: later
  end.

(** [len(direction_paths) >= min_paths]; [min_paths] is any integer. *)
Definition validate_movement_direction (direction_paths : list nat) (min_paths : Z)
  : bool :=
  (min_paths <=? Z.of_nat (List.length direction_paths))%Z.

Definition get_movement_safety_check (b : Buckets) (direction : string) (min_paths : Z)
  : bool :=
  if (direction =? "turn left")%string then
    validate_movement_direction (turn_left b) min_paths
  else if (direction =? "turn right")%string then
    validate_movement_direction (turn_right b) min_paths
  else if (direction =? "advance")%string || (direction =? "move forwards")%string then
    validate_movement_direction (advance b) min_paths
  else if (direction =? "retreat")%string || (direction =? "move back")%string then
    validate_movement_direction (retreat b) min_paths
  else false.

(** ** [_run] *)



(** ** Notions used in the further statements *)

(** The quadratic Bezier polynomial on three control values. *)
Definition bernstein2 (n0 n1 n2 s : R) : R :=
  (1 - s) * (1 - s) * n0 + 2 * (1 - s) * s * n1 + s * s * n2.

(** The row of the point mirrored in the forward axis. *)
Definition mirror_row (r : Row) : Row :=
  (- row_x r, row_y r, - row_angle r, row_d r).

(** The defaults of [__init__] with a half width of zero. *)
Definition zero_width_config : Config :=
  {| half_width_robot := 0; angles_blanked := [];
     max_relevant_distance := 1.1; sensor_mounting_angle := 180.0;
     use_zenoh := false; simple_paths := false |}.

(** The corridor on the other side: 0 and 8, 1 and 7, 2 and 6, 3 and 5
    change places; 4 and 9 stay. *)
Definition mirror_id (c : nat) : nat :=
  if (c <=? 8)%nat then (8 - c)%nat else c.



(** * Properties *)

(** ** Comparisons *)

Lemma Rlt_b_true_iff (a b : R) : Rlt_b a b = true <-> a < b.
Proof. unfold Rlt_b. destruct (Rlt_dec a b); split; intros; try easy. Qed.

Lemma Rle_b_true_iff (a b : R) : Rle_b a b = true <-> a <= b.
Proof. unfold Rle_b. destruct (Rle_dec a b); split; intros; try easy. Qed.

Lemma Rgt_b_true_iff (a b : R) : Rgt_b a b = true <-> a > b.
Proof. unfold Rgt_b. destruct (Rgt_dec a b); split; intros; try easy. Qed.

Lemma Rge_b_true_iff (a b : R) : Rge_b a b = true <-> a >= b.
Proof. unfold Rge_b. destruct (Rge_dec a b); split; intros; try easy. Qed.

Lemma Rlt_b_false_iff (a b : R) : Rlt_b a b = false <-> ~ a < b.
Proof. rewrite <- Rlt_b_true_iff. destruct (Rlt_b a b); split; congruence. Qed.

Lemma Rge_b_false_iff (a b : R) : Rge_b a b = false <-> ~ a >= b.
Proof. rewrite <- Rge_b_true_iff. destruct (Rge_b a b); split; congruence. Qed.


Lemma too_close_iff (hw x y : R) (point : R * R) :
  too_close hw x y point = true <-> distance x y point < hw.
Proof. unfold too_close, distance. apply Rlt_b_true_iff. Qed.

(** A square root is below a bound exactly when the bound is positive and
    the radicand is below its square. *)
Lemma sqrt_lt_bound (a h : R) : sqrt a < h <-> 0 < h /\ a < h * h.
Proof.
  split.
  - intros H. pose proof (sqrt_pos a) as Hp.
    split; [lra|].
    destruct (Rle_dec 0 a) as [Ha|Ha].
    + rewrite <- (sqrt_sqrt a Ha). nra.
    + nra.
  - intros [Hh Ha].
    destruct (Rle_dec 0 a) as [H0|H0].
    + apply Rsqr_incrst_0; [|apply sqrt_pos|lra].
      rewrite Rsqr_sqrt by assumption. unfold Rsqr. exact Ha.
    + rewrite sqrt_neg_0 by lra. exact Hh.
Qed.

Lemma too_close_squares (hw x y : R) (point : R * R) :
  too_close hw x y point = true <->
  0 < hw /\
  (x - fst point) * (x - fst point) + (y - snd point) * (y - snd point) < hw * hw.
Proof. rewrite too_close_iff. unfold distance. apply sqrt_lt_bound. Qed.

(** ** [np.unique] and [np.setdiff1d] *)

Lemma insert_unique_In (a c : nat) (l : list nat) :
  In c (Np.insert_unique a l) <-> c = a \/ In c l.
Proof.
  induction l as [|b t IH]; simpl.
  - intuition.
  - destruct (Nat.ltb_spec a b); [simpl; intuition|].
    destruct (Nat.eqb_spec a b); simpl; [subst; intuition|].
    rewrite IH. intuition.
Qed.

Lemma unique_In (c : nat) (l : list nat) : In c (Np.unique l) <-> In c l.
Proof.
  induction l as [|a t IH]; simpl; [tauto|].
  rewrite insert_unique_In, IH. intuition.
Qed.

Lemma setdiff1d_In (c a : nat) (l : list nat) :
  In c (Np.setdiff1d l [a]) <-> In c l /\ c <> a.
Proof.
  unfold Np.setdiff1d. rewrite filter_In, unique_In. simpl.
  destruct (Nat.eqb_spec c a); simpl; intuition congruence.
Qed.

Lemma unique_sorted (l : list nat) : StronglySorted lt l -> Np.unique l = l.
Proof.
  induction 1 as [|a l Hs IH Hall]; simpl; [reflexivity|].
  rewrite IH. destruct l as [|b t]; simpl; [reflexivity|].
  inversion Hall as [|? ? Hab _]; subst.
  apply Nat.ltb_lt in Hab. now rewrite Hab.
Qed.

Lemma filter_sorted (f : nat -> bool) (l : list nat) :
  StronglySorted lt l -> StronglySorted lt (filter f l).
Proof.
  induction 1 as [|a l Hs IH Hall]; simpl; [constructor|].
  destruct (f a); [|assumption].
  constructor; [assumption|].
  rewrite Forall_forall in *. intros c Hc. apply filter_In in Hc. now apply Hall.
Qed.

Lemma setdiff1d_sorted (a : nat) (l : list nat) :
  StronglySorted lt l ->
  Np.setdiff1d l [a] = filter (fun c => negb (c =? a)%nat) l.
Proof.
  intros Hs. unfold Np.setdiff1d. rewrite (unique_sorted l Hs).
  apply filter_ext. intros c. simpl. now rewrite orb_false_r.
Qed.

(** ** The sort keeps the rows *)

Lemma insert_by_perm {A : Type} (key : A -> R) (a : A) (l : list A) :
  Permutation (Np.insert_by key a l) (a :: l).
Proof.
  induction l as [|b t IH]; simpl; [reflexivity|].
  destruct (Rle_b (key a) (key b)); [reflexivity|].
  rewrite IH. apply perm_swap.
Qed.

Lemma sort_by_perm {A : Type} (key : A -> R) (l : list A) :
  Permutation (Np.sort_by key l) l.
Proof.
  induction l as [|a t IH]; simpl; [reflexivity|].
  rewrite insert_by_perm. now constructor.
Qed.

(** ** The collision loops in closed form *)

Lemma check_path_eq (hw x y : R) (apath : nat) (points : list (R * R))
    (possible_paths : list nat) :
  check_path hw x y apath points possible_paths =
  if existsb (too_close hw x y) points
  then Np.setdiff1d possible_paths [apath] else possible_paths.
Proof.
  induction points as [|p rest IH]; simpl; [reflexivity|].
  destruct (too_close hw x y p); simpl; [reflexivity|exact IH].
Qed.

Lemma filter_filter {A : Type} (f g : A -> bool) (l : list A) :
  filter f (filter g l) = filter (fun c => g c && f c) l.
Proof.
  induction l as [|a t IH]; simpl; [reflexivity|].
  destruct (g a); simpl; [destruct (f a)|]; now rewrite IH.
Qed.

Lemma filter_all {A : Type} (f : A -> bool) (l : list A) :
  (forall a, In a l -> f a = true) -> filter f l = l.
Proof.
  induction l as [|a t IH]; simpl; intros H; [reflexivity|].
  rewrite (H a) by now left. f_equal. apply IH. intros; apply H; now right.
Qed.

Section Loops.

Variable hw : R.
Variable table : list (list (R * R)).

Lemma nth_error_table (a : nat) :
  (a < List.length table)%nat -> nth_error table a = Some (nth a table []).
Proof. intros H. now apply nth_error_nth'. Qed.

Lemma check_paths_In (x y : R) (iter : list nat) :
  in_range table iter ->
  forall acc, exists S',
    check_paths hw x y table iter acc = Some S' /\
    forall c, In c S' <-> In c acc /\ ~ (In c iter /\ hit_by hw table x y c = true).
Proof.
  induction 1 as [|a rest Ha Hrest IH]; intros acc; simpl.
  - exists acc. split; [reflexivity|]. intros c. tauto.
  - rewrite (nth_error_table a Ha), check_path_eq.
    fold (hit_by hw table x y a).
    destruct (IH (if hit_by hw table x y a then Np.setdiff1d acc [a] else acc))
      as [S' [HS' Hin]].
    exists S'. split; [exact HS'|].
    intros c. rewrite Hin.
    destruct (hit_by hw table x y a) eqn:Hhit.
    + rewrite setdiff1d_In. split.
      * intros [[Hc Hne] Hn]. split; [assumption|].
        intros [[->|Hr] Hh]; [congruence|tauto].
      * intros [Hc Hn]. split; [split; [assumption|]|].
        -- intros ->. apply Hn. split; [now left|assumption].
        -- intros [Hr Hh]. apply Hn. split; [now right|assumption].
    + split.
      * intros [Hc Hn]. split; [assumption|].
        intros [[->|Hr] Hh]; [congruence|tauto].
      * intros [Hc Hn]. split; [assumption|].
        intros [Hr Hh]. apply Hn. split; [now right|assumption].
Qed.

Lemma check_collisions_In (rows : list Row) :
  forall S, in_range table S ->
  exists S',
    check_collisions hw table rows S = Some S' /\
    forall c, In c S' <-> In c S /\ path_hit hw table rows c = false.
Proof.
  induction rows as [|row rest IH]; intros S HS; simpl.
  - exists S. split; [reflexivity|]. intros c. tauto.
  - destruct (check_paths_In (row_x row) (row_y row) S HS S) as [S1 [H1 Hin1]].
    rewrite H1.
    assert (HS1 : in_range table S1).
    { unfold in_range in *. rewrite Forall_forall in *.
      intros c Hc. apply HS. now apply Hin1. }
    destruct (IH S1 HS1) as [S' [HS' Hin]].
    exists S'. split; [exact HS'|].
    intros c. rewrite Hin, Hin1, orb_false_iff.
    destruct (hit_by hw table (row_x row) (row_y row) c); intuition congruence.
Qed.

Lemma check_paths_sorted (x y : R) (iter : list nat) :
  in_range table iter ->
  forall acc, StronglySorted lt acc ->
    check_paths hw x y table iter acc =
    Some (filter (fun c => negb (existsb (fun a => (c =? a)%nat && hit_by hw table x y a) iter))
                 acc).
Proof.
  induction 1 as [|a rest Ha Hrest IH]; intros acc Hs; simpl.
  - now rewrite filter_all.
  - rewrite (nth_error_table a Ha), check_path_eq.
    fold (hit_by hw table x y a).
    destruct (hit_by hw table x y a) eqn:Hhit.
    + rewrite setdiff1d_sorted by assumption.
      rewrite IH by now apply filter_sorted.
      rewrite filter_filter. f_equal. apply filter_ext. intros c.
      rewrite andb_true_r. now rewrite negb_orb.
    + rewrite IH by assumption. f_equal. apply filter_ext. intros c.
      now rewrite andb_false_r.
Qed.

Lemma check_paths_self (x y : R) (S : list nat) :
  in_range table S -> StronglySorted lt S ->
  check_paths hw x y table S S =
  Some (filter (fun c => negb (hit_by hw table x y c)) S).
Proof.
  intros HS Hs. rewrite check_paths_sorted by assumption.
  f_equal. apply filter_ext_in. intros c Hc. f_equal.
  destruct (hit_by hw table x y c) eqn:Hhit.
  - apply existsb_exists. exists c. now rewrite Nat.eqb_refl, Hhit.
  - apply not_true_is_false. intros Hex. apply existsb_exists in Hex.
    destruct Hex as [a [_ Ha]]. apply andb_true_iff in Ha as [Hca Hh].
    apply Nat.eqb_eq in Hca. subst. congruence.
Qed.

Lemma check_collisions_sorted (rows : list Row) :
  forall S, in_range table S -> StronglySorted lt S ->
    check_collisions hw table rows S =
    Some (filter (fun c => negb (path_hit hw table rows c)) S).
Proof.
  induction rows as [|row rest IH]; intros S HS Hs; simpl.
  - now rewrite filter_all.
  - rewrite check_paths_self by assumption.
    rewrite IH.
    + rewrite filter_filter. f_equal. apply filter_ext. intros c.
      now rewrite negb_orb.
    + unfold in_range in *. rewrite Forall_forall in *.
      intros c Hc. apply filter_In in Hc. now apply HS.
    + now apply filter_sorted.
Qed.

End Loops.

Lemma path_hit_iff (hw : R) (table : list (list (R * R))) (rows : list Row) (c : nat) :
  path_hit hw table rows c = true <->
  exists row point,
    In row rows /\ In point (nth c table []) /\
    distance (row_x row) (row_y row) point < hw.
Proof.
  unfold path_hit, hit_by. rewrite existsb_exists. split.
  - intros [row [Hr Hex]]. apply existsb_exists in Hex as [point [Hp Hc]].
    exists row, point. now rewrite <- too_close_iff.
  - intros [row [point [Hr [Hp Hd]]]]. exists row. split; [assumption|].
    apply existsb_exists. exists point. now rewrite too_close_iff.
Qed.

Lemma path_hit_perm (hw : R) (table : list (list (R * R))) (rows rows' : list Row)
    (c : nat) :
  Permutation rows rows' -> path_hit hw table rows c = path_hit hw table rows' c.
Proof.
  intros Hp. apply eq_true_iff_eq. rewrite !path_hit_iff.
  split; intros [row [point [Hr H]]]; exists row, point; split; try assumption.
  - now apply (Permutation_in _ Hp).
  - now apply (Permutation_in _ (Permutation_sym Hp)).
Qed.

(** ** The corridor table and the starting sets *)

Lemma pp_length : List.length pp = 10%nat.
Proof. reflexivity. Qed.

Lemma pp_samples (c : nat) : (c < 10)%nat -> List.length (nth c pp []) = 10%nat.
Proof.
  intros H. do 10 (destruct c as [|c]; [reflexivity|]). lia.
Qed.

Lemma all_paths_sorted : StronglySorted lt all_paths.
Proof. unfold all_paths. repeat (constructor; [|repeat constructor; lia]). constructor. Qed.

Lemma starting_paths_sorted (cfg : Config) : StronglySorted lt (starting_paths cfg).
Proof.
  unfold starting_paths. destruct (simple_paths cfg); [|apply all_paths_sorted].
  repeat constructor.
Qed.

Lemma starting_paths_range (cfg : Config) :
  Forall (fun c => (c < List.length pp)%nat) (starting_paths cfg).
Proof.
  rewrite pp_length. unfold starting_paths, all_paths.
  destruct (simple_paths cfg); repeat constructor; lia.
Qed.

Lemma starting_paths_incl (cfg : Config) : incl (starting_paths cfg) all_paths.
Proof.
  unfold starting_paths, all_paths. destruct (simple_paths cfg); [|apply incl_refl].
  intros c [<-|[]]. simpl. tauto.
Qed.

(** ** [prune] and [process_array] in closed form *)

Lemma sorted_array_perm (array : list Row) : Permutation (sorted_array array) array.
Proof.
  unfold sorted_array. destruct (1 <? Np.ndim array)%nat; [apply sort_by_perm|reflexivity].
Qed.

Lemma prune_In (hw : R) (array : list Row) (S : list nat) :
  Forall (fun c => (c < 10)%nat) S ->
  exists S',
    prune hw array S = (sorted_array array, Some S') /\
    forall c, In c S' <-> In c S /\ path_hit hw pp array c = false.
Proof.
  intros HS. unfold prune, sorted_array.
  destruct array as [|row rest]; simpl Np.ndim; cbn [Nat.ltb Nat.leb].
  - exists S. split; [reflexivity|]. intros c. simpl. tauto.
  - rewrite <- pp_length in HS.
    destruct (check_collisions_In hw pp (Np.sort_by row_angle (row :: rest)) S HS)
      as [S' [HS' Hin]].
    exists S'. rewrite HS'. split; [reflexivity|].
    intros c. rewrite Hin.
    now rewrite (path_hit_perm hw pp _ _ c (sort_by_perm row_angle (row :: rest))).
Qed.

Lemma prune_start (cfg : Config) (array : list Row) :
  prune (half_width_robot cfg) array (starting_paths cfg) =
  (sorted_array array, Some (surviving cfg array)).
Proof.
  unfold prune, sorted_array, surviving.
  destruct array as [|row rest]; simpl Np.ndim; cbn [Nat.ltb Nat.leb].
  - simpl. now rewrite filter_all.
  - rewrite check_collisions_sorted
      by (apply starting_paths_range || apply starting_paths_sorted).
    do 2 f_equal. apply filter_ext. intros c. f_equal.
    apply path_hit_perm, sort_by_perm.
Qed.

Lemma process_array_eq (cfg : Config) (array : list Row) :
  process_array cfg array =
  Some {| raw_scan := sorted_array array;
          lidar_string :=
            _generate_movement_string cfg
              (fst (_categorize_paths (surviving cfg array))) (surviving cfg array);
          valid_paths := surviving cfg array |}.
Proof. unfold process_array. now rewrite prune_start. Qed.

Lemma surviving_perm (cfg : Config) (a1 a2 : list Row) :
  Permutation a1 a2 -> surviving cfg a1 = surviving cfg a2.
Proof.
  intros Hp. unfold surviving. apply filter_ext. intros c. f_equal.
  now apply path_hit_perm.
Qed.

Lemma surviving_In (cfg : Config) (array : list Row) (c : nat) :
  In c (surviving cfg array) <->
  In c (starting_paths cfg) /\ path_hit (half_width_robot cfg) pp array c = false.
Proof.
  unfold surviving. rewrite filter_In.
  destruct (path_hit (half_width_robot cfg) pp array c); simpl; intuition congruence.
Qed.

(** ** The buckets *)

Lemma categorize_fold (l : list nat) : forall b,
  fold_left categorize_one l b =
  {| turn_left := turn_left b ++ filter (fun p => p <? 4)%nat l;
     advance := advance b ++ filter (fun p => p =? 4)%nat l;
     turn_right := turn_right b ++ filter (fun p => (4 <? p) && (p <? 9))%nat l;
     retreat := retreat b ++ filter (fun p => p =? 9)%nat l |}.
Proof.
  induction l as [|p t IH]; intros b; simpl.
  - rewrite !app_nil_r. now destruct b.
  - rewrite IH. unfold categorize_one.
    destruct (Nat.ltb_spec p 4).
    + simpl. rewrite <- app_assoc. simpl.
      destruct (Nat.eqb_spec p 4); [lia|].
      destruct (Nat.ltb_spec 4 p); [lia|].
      destruct (Nat.eqb_spec p 9); [lia|]. reflexivity.
    + destruct (Nat.eqb_spec p 4).
      * simpl. rewrite <- app_assoc. simpl.
        destruct (Nat.ltb_spec 4 p); [lia|].
        destruct (Nat.eqb_spec p 9); [lia|]. reflexivity.
      * destruct (Nat.ltb_spec p 9).
        -- simpl. rewrite <- app_assoc. simpl.
           destruct (Nat.ltb_spec 4 p); [|lia].
           destruct (Nat.eqb_spec p 9); [lia|]. reflexivity.
        -- destruct (Nat.ltb_spec 4 p); [|lia]. simpl.
           destruct (Nat.eqb_spec p 9).
           ++ simpl. now rewrite <- app_assoc.
           ++ reflexivity.
Qed.

Lemma advance_categorize (l : list nat) :
  advance (fst (_categorize_paths l)) = filter (fun p => p =? 4)%nat l.
Proof. unfold _categorize_paths. simpl. now rewrite categorize_fold. Qed.

(** ** Pruning *)

(** C1: for every sequence of transformed points and every starting set [S]
    of corridor ids, the pruning step (sort and collision loops) returns a
    set from which a corridor [c] of [S] is missing if and only if some
    point lies at Euclidean distance strictly below the half width from one
    of the 10 sample points of [c]; in particular so for corridor 4 and the
    full starting set. *)
Theorem C1_pruned_iff_too_close :
  (forall (hw : R) (array : list Row) (S : list nat),
      Forall (fun c => (c < 10)%nat) S ->
      exists S',
        snd (prune hw array S) = Some S' /\
        incl S' S /\
        forall c, In c S -> (~ In c S' <-> obstructed hw array c)) /\
  (forall c, (c < 10)%nat -> List.length (nth c pp []) = 10%nat) /\
  (forall (hw : R) (array : list Row),
      exists S',
        snd (prune hw array all_paths) = Some S' /\
        (~ In 4%nat S' <-> obstructed hw array 4)).
Proof.
  assert (General : forall (hw : R) (array : list Row) (S : list nat),
      Forall (fun c => (c < 10)%nat) S ->
      exists S',
        snd (prune hw array S) = Some S' /\
        incl S' S /\
        forall c, In c S -> (~ In c S' <-> obstructed hw array c)).
  { intros hw array S HS.
    destruct (prune_In hw array S HS) as [S' [Hp Hin]].
    exists S'. rewrite Hp. split; [reflexivity|]. split.
    - intros c Hc. now apply Hin.
    - intros c Hc. unfold obstructed. rewrite <- path_hit_iff, Hin.
      destruct (path_hit hw pp array c); intuition congruence. }
  split; [exact General|]. split; [exact pp_samples|].
  intros hw array.
  destruct (General hw array all_paths) as [S' [Hp [_ Hiff]]].
  - unfold all_paths. repeat constructor; lia.
  - exists S'. split; [exact Hp|]. apply Hiff. unfold all_paths. simpl. tauto.
Qed.

(** C1 at a starting set of two corridors and one point at the origin. *)
Lemma C1_pruned_iff_too_close_witness :
  Forall (fun c => (c < 10)%nat) [4; 9]%nat /\
  exists S',
    snd (prune 1 [(0, 0, 0, 0)] [4; 9]%nat) = Some S' /\
    incl S' [4; 9]%nat /\
    forall c, In c [4; 9]%nat -> (~ In c S' <-> obstructed 1 [(0, 0, 0, 0)] c).
Proof.
  assert (H : Forall (fun c => (c < 10)%nat) [4; 9]%nat) by (repeat constructor; lia).
  split; [exact H|].
  exact (proj1 C1_pruned_iff_too_close 1 [(0, 0, 0, 0)] [4; 9]%nat H).
Defined.

(** Every assignment to [possible_paths] inside the loops keeps a subset. *)
Lemma check_path_incl (hw x y : R) (apath : nat) (points : list (R * R))
    (possible_paths : list nat) :
  incl (check_path hw x y apath points possible_paths) possible_paths.
Proof.
  rewrite check_path_eq. destruct (existsb (too_close hw x y) points).
  - intros c Hc. now apply setdiff1d_In in Hc.
  - apply incl_refl.
Qed.

Lemma path_hit_app (hw : R) (table : list (list (R * R))) (r1 r2 : list Row) (c : nat) :
  path_hit hw table (r1 ++ r2) c = path_hit hw table r1 c || path_hit hw table r2 c.
Proof. unfold path_hit. apply existsb_app. Qed.

(** C2: the published [valid_paths] holds only ids of 0..9, and only 4 when
    [simple_paths] is set; the candidate set never grows, neither at an
    assignment inside the loops nor from one scan point to a later one. *)
Theorem C2_valid_paths_bounded :
  (forall (cfg : Config) (st : State) (data : list (R * R)),
      exists st' ppl,
        _process cfg st data = Some st' /\
        _valid_paths st' = Some ppl /\
        incl ppl all_paths /\
        incl ppl (if simple_paths cfg then [4%nat] else all_paths)) /\
  (forall (cfg : Config) (st : State),
      exists st',
        _preprocess_zenoh cfg st None = Some st' /\ _valid_paths st' = Some []) /\
  (forall (hw x y : R) (apath : nat) (points : list (R * R)) (possible_paths : list nat),
      incl (check_path hw x y apath points possible_paths) possible_paths) /\
  (forall (cfg : Config) (rows1 rows2 : list Row),
      exists S1 S2,
        check_collisions (half_width_robot cfg) pp rows1 (starting_paths cfg) = Some S1 /\
        check_collisions (half_width_robot cfg) pp (rows1 ++ rows2) (starting_paths cfg)
          = Some S2 /\
        incl S2 S1 /\ incl S1 (starting_paths cfg)).
Proof.
  repeat split.
  - intros cfg st data. unfold _process, process_snapshot.
    rewrite process_array_eq. eexists. eexists.
    split; [reflexivity|]. split; [reflexivity|]. cbn [valid_paths].
    assert (Hs : incl (surviving cfg (_transform_coordinates cfg data)) (starting_paths cfg)).
    { intros c Hc. now apply surviving_In in Hc. }
    split.
    + eapply incl_tran; [exact Hs|apply starting_paths_incl].
    + exact Hs.
  - intros cfg st. eexists. split; reflexivity.
  - exact check_path_incl.
  - intros cfg rows1 rows2.
    pose proof (starting_paths_range cfg) as Hr.
    pose proof (starting_paths_sorted cfg) as Hs.
    rewrite !check_collisions_sorted by assumption.
    eexists. eexists. split; [reflexivity|]. split; [reflexivity|]. split.
    + intros c Hc. apply filter_In in Hc as [Hc Hh]. apply filter_In.
      split; [assumption|]. rewrite path_hit_app, negb_orb in Hh.
      now apply andb_true_iff in Hh.
    + intros c Hc. now apply filter_In in Hc.
Qed.

(** C4: on an empty sequence of transformed points the pruning step returns
    the starting set as it is, whatever the set; the pass then publishes
    the full set, or [4] alone when [simple_paths] is set. *)
Theorem C4_empty_input_keeps_start :
  (forall (hw : R) (S : list nat), prune hw [] S = ([], Some S)) /\
  (forall cfg : Config,
      exists snap,
        process_array cfg [] = Some snap /\
        raw_scan snap = [] /\
        valid_paths snap = (if simple_paths cfg then [4%nat] else all_paths)) /\
  (forall (cfg : Config) (st : State),
      exists st',
        _process cfg st [] = Some st' /\
        _valid_paths st' = Some (if simple_paths cfg then [4%nat] else all_paths)).
Proof.
  assert (Hs : forall cfg, surviving cfg [] = starting_paths cfg).
  { intros cfg. unfold surviving. simpl. now apply filter_all. }
  repeat split.
  - intros cfg. rewrite process_array_eq. eexists. split; [reflexivity|].
    split; [reflexivity|]. cbn [valid_paths]. now rewrite Hs.
  - intros cfg st. unfold _process, process_snapshot. simpl _transform_coordinates.
    rewrite process_array_eq. eexists. split; [reflexivity|].
    cbn. now rewrite Hs.
Qed.

(** ** The movement string *)

Lemma generate_surrounded_iff (cfg : Config) (b : Buckets) (ppl : list nat) :
  _generate_movement_string cfg b ppl = surrounded_message <-> ppl = [].
Proof.
  unfold _generate_movement_string. destruct ppl as [|p t]; simpl.
  - tauto.
  - split; [|discriminate]. unfold add_if.
    destruct (use_zenoh cfg); repeat match goal with
    | |- context [if ?c then _ else _] => destruct c
    end; cbv; discriminate.
Qed.

Lemma transform_nil_surviving (cfg : Config) : surviving cfg [] = starting_paths cfg.
Proof. unfold surviving. simpl. now apply filter_all. Qed.

Lemma starting_paths_nonempty (cfg : Config) : starting_paths cfg <> [].
Proof. unfold starting_paths, all_paths. destruct (simple_paths cfg); discriminate. Qed.

Lemma process_state (cfg : Config) (st : State) (data : list (R * R)) :
  exists st',
    _process cfg st data = Some st' /\
    _raw_scan st' = Some (sorted_array (_transform_coordinates cfg data)) /\
    _valid_paths st' = Some (surviving cfg (_transform_coordinates cfg data)) /\
    _lidar_string st' =
      Some (_generate_movement_string cfg
              (fst (_categorize_paths (surviving cfg (_transform_coordinates cfg data))))
              (surviving cfg (_transform_coordinates cfg data))).
Proof.
  unfold _process, process_snapshot. rewrite process_array_eq.
  eexists. split; [reflexivity|]. cbn. repeat split.
Qed.

(** C3, as the specification states it, fails on an empty batch under the
    default configuration: the pass publishes an empty [raw_scan], all ten
    corridors and the string that lists every direction. *)
Lemma C3_counterexample :
  exists st',
    _process default_config initial_state [] = Some st' /\
    _raw_scan st' = Some [] /\
    _valid_paths st' = Some [0; 1; 2; 3; 4; 5; 6; 7; 8; 9]%nat /\
    _lidar_string st' =
      Some "The safe movement directions are: {'turn left', 'move forwards', 'turn right', 'move back', 'stand still'}. "%string /\
    ~ (_valid_paths st' = Some [] /\ _lidar_string st' = Some surrounded_message).
Proof.
  destruct (process_state default_config initial_state []) as [st' [Hp [Hr [Hv Hl]]]].
  simpl _transform_coordinates in *. rewrite transform_nil_surviving in *.
  exists st'. split; [exact Hp|]. split; [exact Hr|]. split; [exact Hv|].
  split; [exact Hl|]. rewrite Hv. intros [H _]. discriminate H.
Qed.

(** C3, amended: when no scan has arrived yet ([scan is None]) the provider
    publishes an empty [raw_scan], no corridor and the message that starts
    with "You might be surrounded"; a batch whose transformed array is empty
    publishes an empty [raw_scan], the whole starting set and a string other
    than the surrounded message; after every pass the string is the
    surrounded message exactly when no corridor is left. *)
Theorem C3_no_data_and_empty_batch :
  (forall (cfg : Config) (st : State),
      exists st',
        _preprocess_zenoh cfg st None = Some st' /\
        _raw_scan st' = Some [] /\
        _valid_paths st' = Some [] /\
        _lidar_string st' =
          Some "You might be surrounded by objects and cannot safely move in any direction. DO NOT MOVE."%string) /\
  (forall (cfg : Config) (st : State) (data : list (R * R)),
      _transform_coordinates cfg data = [] ->
      exists st' s,
        _process cfg st data = Some st' /\
        _raw_scan st' = Some [] /\
        _valid_paths st' = Some (starting_paths cfg) /\
        _lidar_string st' = Some s /\ s <> surrounded_message) /\
  (forall (cfg : Config) (st : State) (data : list (R * R)),
      exists st' s ppl,
        _process cfg st data = Some st' /\
        _lidar_string st' = Some s /\
        _valid_paths st' = Some ppl /\
        (s = surrounded_message <-> ppl = [])).
Proof.
  repeat split.
  - intros cfg st. eexists. repeat split.
  - intros cfg st data Hnil.
    destruct (process_state cfg st data) as [st' [Hp [Hr [Hv Hl]]]].
    rewrite Hnil in *. rewrite transform_nil_surviving in *.
    exists st'. eexists. split; [exact Hp|]. split; [exact Hr|]. split; [exact Hv|].
    split; [exact Hl|]. rewrite generate_surrounded_iff. apply starting_paths_nonempty.
  - intros cfg st data.
    destruct (process_state cfg st data) as [st' [Hp [_ [Hv Hl]]]].
    exists st'. eexists. eexists. split; [exact Hp|]. split; [exact Hl|].
    split; [exact Hv|]. apply generate_surrounded_iff.
Qed.

Lemma far_reading_dropped (cfg : Config) (reading : R * R) :
  snd reading > max_relevant_distance cfg -> transform_reading cfg reading = None.
Proof.
  intros H. unfold transform_reading. apply Rgt_b_true_iff in H. now rewrite H.
Qed.

(** C3, amended, at a batch of one reading beyond the relevant distance. *)
Lemma C3_no_data_and_empty_batch_witness :
  _transform_coordinates default_config [(0, 5)] = [] /\
  exists st' s,
    _process default_config initial_state [(0, 5)] = Some st' /\
    _raw_scan st' = Some [] /\
    _valid_paths st' = Some (starting_paths default_config) /\
    _lidar_string st' = Some s /\ s <> surrounded_message.
Proof.
  assert (H : _transform_coordinates default_config [(0, 5)] = []).
  { cbn [_transform_coordinates]. rewrite far_reading_dropped; [reflexivity|].
    simpl. lra. }
  split; [exact H|].
  exact (proj1 (proj2 C3_no_data_and_empty_batch) default_config initial_state [(0, 5)] H).
Defined.

(** C5, as the specification states it, fails when [simple_paths] is set
    and [use_zenoh] is not: on an empty batch [valid_paths] is [4] and the
    string lists neither turn. *)
Lemma C5_counterexample :
  exists snap,
    process_snapshot simple_config [] = Some snap /\
    valid_paths snap = [4%nat] /\
    lidar_string snap =
      "The safe movement directions are: {'move forwards', 'stand still'}. "%string /\
    lists (lidar_string snap) "turn left" = false /\
    lists (lidar_string snap) "turn right" = false.
Proof.
  unfold process_snapshot. simpl _transform_coordinates.
  rewrite process_array_eq, transform_nil_surviving.
  eexists. split; [reflexivity|]. repeat split.
Qed.

Lemma filter_eqb_nonempty (l : list nat) (c : nat) :
  (0 <? List.length (filter (fun p => p =? c)%nat l))%nat = existsb (Nat.eqb c) l.
Proof.
  induction l as [|a t IH]; simpl; [reflexivity|].
  rewrite (Nat.eqb_sym c a). destruct (a =? c)%nat; simpl; [reflexivity|exact IH].
Qed.

(** C5, amended: the fixed repertoire is chosen by [use_zenoh], not by
    [simple_paths]. With [use_zenoh] set and a non-empty [valid_paths] the
    string lists both turns, lists "move forwards" exactly when corridor 4
    is in [valid_paths], and ends with "stand still"; with [use_zenoh] and
    [simple_paths] both set an empty batch gives [4] and the string with
    both turns, "move forwards" and "stand still". *)
Theorem C5_zenoh_repertoire :
  (forall (cfg : Config) (array : list Row) (snap : Snapshot),
      use_zenoh cfg = true ->
      process_array cfg array = Some snap ->
      valid_paths snap <> [] ->
      lidar_string snap =
        (if existsb (Nat.eqb 4) (valid_paths snap) then turns_and_forwards else turns_only) /\
      lists (lidar_string snap) "turn left" = true /\
      lists (lidar_string snap) "turn right" = true /\
      (lists (lidar_string snap) "move forwards" = true <-> In 4%nat (valid_paths snap)) /\
      lists (lidar_string snap) "stand still" = true) /\
  (forall cfg : Config,
      use_zenoh cfg = true ->
      simple_paths cfg = true ->
      exists snap,
        process_snapshot cfg [] = Some snap /\
        valid_paths snap = [4%nat] /\
        lidar_string snap = turns_and_forwards).
Proof.
  split.
  - intros cfg array snap Hz Hp Hne.
    rewrite process_array_eq in Hp. injection Hp as <-. cbn [valid_paths lidar_string] in *.
    set (vp := surviving cfg array) in *.
    assert (Hs : _generate_movement_string cfg (fst (_categorize_paths vp)) vp =
                 if existsb (Nat.eqb 4) vp then turns_and_forwards else turns_only).
    { unfold _generate_movement_string. rewrite Hz, advance_categorize, filter_eqb_nonempty.
      destruct vp as [|p t]; [congruence|].
      change (List.length (p :: t) =? 0)%nat with false. cbv iota.
      destruct (existsb (Nat.eqb 4) (p :: t)); reflexivity. }
    change (fold_left categorize_one vp no_buckets) with (fst (_categorize_paths vp)).
    rewrite Hs. split; [reflexivity|].
    destruct (existsb (Nat.eqb 4) vp) eqn:H4.
    + repeat split; try reflexivity.
      intros _. apply existsb_exists in H4 as [c [Hc Heq]].
      apply Nat.eqb_eq in Heq. now subst.
    + repeat split; try reflexivity; try discriminate.
      intros Hin. exfalso.
      assert (existsb (Nat.eqb 4) vp = true); [|congruence].
      apply existsb_exists. exists 4%nat. split; [assumption|reflexivity].
  - intros cfg Hz Hs. unfold process_snapshot. simpl _transform_coordinates.
    rewrite process_array_eq, transform_nil_surviving.
    unfold starting_paths. rewrite Hs.
    eexists. split; [reflexivity|]. split; [reflexivity|].
    cbn [lidar_string]. unfold _generate_movement_string. rewrite Hz. reflexivity.
Qed.

(** C5, amended, at the empty array with both flags set. *)
Lemma C5_zenoh_repertoire_witness :
  use_zenoh zenoh_simple_config = true /\
  process_array zenoh_simple_config [] =
    Some {| raw_scan := []; lidar_string := turns_and_forwards; valid_paths := [4%nat] |} /\
  [4%nat] <> [] /\
  lists turns_and_forwards "turn left" = true /\
  lists turns_and_forwards "turn right" = true /\
  (lists turns_and_forwards "move forwards" = true <-> In 4%nat [4%nat]) /\
  lists turns_and_forwards "stand still" = true.
Proof.
  assert (Hz : use_zenoh zenoh_simple_config = true) by reflexivity.
  assert (Hp : process_array zenoh_simple_config [] =
    Some {| raw_scan := []; lidar_string := turns_and_forwards; valid_paths := [4%nat] |})
    by reflexivity.
  assert (Hne : [4%nat] <> []) by discriminate.
  split; [exact Hz|]. split; [exact Hp|]. split; [exact Hne|].
  exact (proj2 (proj1 C5_zenoh_repertoire zenoh_simple_config [] _ Hz Hp Hne)).
Defined.

(** ** Independence of the order of the points *)

Lemma transform_app (cfg : Config) (d1 d2 : list (R * R)) :
  _transform_coordinates cfg (d1 ++ d2) =
  _transform_coordinates cfg d1 ++ _transform_coordinates cfg d2.
Proof.
  induction d1 as [|r t IH]; simpl; [reflexivity|].
  destruct (transform_reading cfg r); simpl; now rewrite IH.
Qed.

Lemma transform_perm (cfg : Config) (d1 d2 : list (R * R)) :
  Permutation d1 d2 ->
  Permutation (_transform_coordinates cfg d1) (_transform_coordinates cfg d2).
Proof.
  induction 1 as [|r l l' Hp IH|r r' l|l l' l'' H1 IH1 H2 IH2]; simpl.
  - constructor.
  - destruct (transform_reading cfg r); [now constructor|assumption].
  - destruct (transform_reading cfg r), (transform_reading cfg r');
      try reflexivity. apply perm_swap.
  - now transitivity (_transform_coordinates cfg l').
Qed.

(** C7: two orderings of the same transformed points give the same
    [valid_paths] and the same [lidar_string]; so do two orderings of the
    same batch of readings. *)
Theorem C7_order_independent :
  (forall (cfg : Config) (a1 a2 : list Row),
      Permutation a1 a2 ->
      exists s1 s2,
        process_array cfg a1 = Some s1 /\
        process_array cfg a2 = Some s2 /\
        valid_paths s1 = valid_paths s2 /\
        lidar_string s1 = lidar_string s2) /\
  (forall (cfg : Config) (d1 d2 : list (R * R)),
      Permutation d1 d2 ->
      exists s1 s2,
        process_snapshot cfg d1 = Some s1 /\
        process_snapshot cfg d2 = Some s2 /\
        valid_paths s1 = valid_paths s2 /\
        lidar_string s1 = lidar_string s2).
Proof.
  assert (Arrays : forall (cfg : Config) (a1 a2 : list Row),
      Permutation a1 a2 ->
      exists s1 s2,
        process_array cfg a1 = Some s1 /\
        process_array cfg a2 = Some s2 /\
        valid_paths s1 = valid_paths s2 /\
        lidar_string s1 = lidar_string s2).
  { intros cfg a1 a2 Hp. rewrite !process_array_eq.
    eexists. eexists. split; [reflexivity|]. split; [reflexivity|].
    cbn [valid_paths lidar_string]. rewrite (surviving_perm cfg a1 a2 Hp).
    split; reflexivity. }
  split; [exact Arrays|].
  intros cfg d1 d2 Hp. apply Arrays. now apply transform_perm.
Qed.

(** C7 at two rows in both orders. *)
Lemma C7_order_independent_witness :
  Permutation [(0, 0.5, 0, 0.5); (0, -0.5, -180, 0.5)] [(0, -0.5, -180, 0.5); (0, 0.5, 0, 0.5)] /\
  exists s1 s2,
    process_array default_config [(0, 0.5, 0, 0.5); (0, -0.5, -180, 0.5)] = Some s1 /\
    process_array default_config [(0, -0.5, -180, 0.5); (0, 0.5, 0, 0.5)] = Some s2 /\
    valid_paths s1 = valid_paths s2 /\
    lidar_string s1 = lidar_string s2.
Proof.
  assert (H : Permutation [(0, 0.5, 0, 0.5); (0, -0.5, -180, 0.5)]
                          [(0, -0.5, -180, 0.5); (0, 0.5, 0, 0.5)]) by apply perm_swap.
  split; [exact H|].
  exact (proj1 C7_order_independent default_config _ _ H).
Defined.

(** ** Readings that the transform drops *)

(** Decide the comparisons of concrete numbers in the goal. *)
Ltac cmp_R :=
  unfold Rlt_b, Rle_b, Rgt_b, Rge_b;
  repeat match goal with
  | |- context [Rlt_dec ?a ?b] => destruct (Rlt_dec a b); try (exfalso; lra)
  | |- context [Rle_dec ?a ?b] => destruct (Rle_dec a b); try (exfalso; lra)
  | |- context [Rgt_dec ?a ?b] => destruct (Rgt_dec a b); try (exfalso; lra)
  | |- context [Rge_dec ?a ?b] => destruct (Rge_dec a b); try (exfalso; lra)
  end.

Lemma reflection_true_iff (blanked : list (R * R)) (angle : R) :
  reflection blanked angle = true <->
  exists b, In b blanked /\ fst b <= angle <= snd b.
Proof.
  induction blanked as [|b rest IH]; simpl.
  - split; [discriminate|]. intros [b [[] _]].
  - destruct (Rge_b angle (fst b) && Rle_b angle (snd b)) eqn:Hb.
    + split; [|reflexivity]. intros _. exists b.
      apply andb_true_iff in Hb as [H1 H2].
      apply Rge_b_true_iff in H1. apply Rle_b_true_iff in H2.
      split; [now left|lra].
    + rewrite IH. split.
      * intros [b' [Hin Hr]]. exists b'. split; [now right|assumption].
      * intros [b' [[<-|Hin] Hr]]; [|exists b'; now split].
        exfalso. apply andb_false_iff in Hb as [H1|H2].
        -- apply Rge_b_false_iff in H1. lra.
        -- unfold Rle_b in H2. destruct (Rle_dec angle (snd b)); [discriminate|lra].
Qed.

Lemma blanked_reading_dropped (cfg : Config) (reading : R * R) :
  (exists b, In b (angles_blanked cfg) /\
             fst b <= robot_angle cfg (fst reading) <= snd b) ->
  transform_reading cfg reading = None.
Proof.
  intros H. apply reflection_true_iff in H. unfold transform_reading.
  rewrite H. now destruct (Rgt_b (snd reading) (max_relevant_distance cfg)).
Qed.

(** C8: a reading beyond [max_relevant_distance], or whose angle in the
    robot frame lies in a blanked range with both ends counted, can be added
    anywhere in a batch without changing the transformed array, the
    snapshot or the published state. *)
Theorem C8_dropped_reading_no_influence :
  forall (cfg : Config) (d1 d2 : list (R * R)) (angle dist : R),
    (dist > max_relevant_distance cfg \/
     exists b, In b (angles_blanked cfg) /\ fst b <= robot_angle cfg angle <= snd b) ->
    _transform_coordinates cfg (d1 ++ (angle, dist) :: d2) =
      _transform_coordinates cfg (d1 ++ d2) /\
    (exists snap,
        process_snapshot cfg (d1 ++ (angle, dist) :: d2) = Some snap /\
        process_snapshot cfg (d1 ++ d2) = Some snap) /\
    (forall st : State,
        _process cfg st (d1 ++ (angle, dist) :: d2) = _process cfg st (d1 ++ d2)).
Proof.
  intros cfg d1 d2 angle dist H.
  assert (Hdrop : transform_reading cfg (angle, dist) = None).
  { destruct H as [H|H].
    - now apply far_reading_dropped.
    - now apply blanked_reading_dropped. }
  assert (Ht : _transform_coordinates cfg (d1 ++ (angle, dist) :: d2) =
               _transform_coordinates cfg (d1 ++ d2)).
  { rewrite !transform_app. cbn [_transform_coordinates]. now rewrite Hdrop. }
  split; [exact Ht|]. split.
  - unfold process_snapshot. rewrite Ht, process_array_eq. eexists. split; reflexivity.
  - intros st. unfold _process, process_snapshot. now rewrite Ht.
Qed.

Lemma blanking_angle_10 : robot_angle blanking_config 10 = 10.
Proof. unfold robot_angle. simpl sensor_mounting_angle. cmp_R. lra. Qed.

(** C8 at a reading whose robot-frame angle is the upper end of the range. *)
Lemma C8_dropped_reading_no_influence_witness :
  (0.5 > max_relevant_distance blanking_config \/
   exists b, In b (angles_blanked blanking_config) /\
             fst b <= robot_angle blanking_config 10 <= snd b) /\
  _transform_coordinates blanking_config ([(0, 0.5)] ++ (10, 0.5) :: []) =
    _transform_coordinates blanking_config ([(0, 0.5)] ++ []) /\
  (exists snap,
      process_snapshot blanking_config ([(0, 0.5)] ++ (10, 0.5) :: []) = Some snap /\
      process_snapshot blanking_config ([(0, 0.5)] ++ []) = Some snap) /\
  (forall st : State,
      _process blanking_config st ([(0, 0.5)] ++ (10, 0.5) :: []) =
      _process blanking_config st ([(0, 0.5)] ++ [])).
Proof.
  assert (H : 0.5 > max_relevant_distance blanking_config \/
              exists b, In b (angles_blanked blanking_config) /\
                        fst b <= robot_angle blanking_config 10 <= snd b).
  { right. exists (-10, 10). split; [now left|].
    rewrite blanking_angle_10. simpl. lra. }
  split; [exact H|].
  exact (C8_dropped_reading_no_influence blanking_config [(0, 0.5)] [] 10 0.5 H).
Defined.

(** ** A point next to the origin *)

Lemma first_sample_origin (points : list (R * R)) :
  In points pp -> hd_error points = Some (0, 0).
Proof.
  unfold pp, curves. simpl In.
  intros H; repeat (destruct H as [<-|H]); try contradiction;
    cbv [pairs_of quadratic nth Bezier.evaluate_multi Bezier.nodes Bezier.degree
         s_vals Np.linspace seq map combine Bezier.casteljau Bezier.lerp_adjacent
         hd hd_error Nat.sub];
    simpl Z.of_nat; do 2 f_equal; lra.
Qed.

Lemma origin_in_corridor (c : nat) : (c < 10)%nat -> In (0, 0) (nth c pp []).
Proof.
  intros Hc.
  assert (Hin : In (nth c pp []) pp) by (apply nth_In; now rewrite pp_length).
  apply first_sample_origin in Hin.
  destruct (nth c pp []) as [|p t]; [discriminate|].
  injection Hin as ->. now left.
Qed.

(** C10: the first sample point of every corridor is the origin; hence a
    transformed point closer to the origin than the half width removes every
    corridor, and the pass publishes no corridor and the surrounded
    message. *)
Theorem C10_point_at_origin_blocks_all :
  (forall points, In points pp -> hd_error points = Some (0, 0)) /\
  (forall (cfg : Config) (data : list (R * R)) (row : Row),
      In row (_transform_coordinates cfg data) ->
      distance (row_x row) (row_y row) (0, 0) < half_width_robot cfg ->
      exists snap,
        process_snapshot cfg data = Some snap /\
        valid_paths snap = [] /\
        lidar_string snap = surrounded_message) /\
  (forall (cfg : Config) (st : State) (data : list (R * R)) (row : Row),
      In row (_transform_coordinates cfg data) ->
      distance (row_x row) (row_y row) (0, 0) < half_width_robot cfg ->
      exists st',
        _process cfg st data = Some st' /\
        _valid_paths st' = Some [] /\
        _lidar_string st' = Some surrounded_message).
Proof.
  assert (Hnone : forall (cfg : Config) (data : list (R * R)) (row : Row),
      In row (_transform_coordinates cfg data) ->
      distance (row_x row) (row_y row) (0, 0) < half_width_robot cfg ->
      surviving cfg (_transform_coordinates cfg data) = []).
  { intros cfg data row Hin Hd.
    destruct (surviving cfg (_transform_coordinates cfg data)) as [|c t] eqn:Hs;
      [reflexivity|exfalso].
    assert (Hc : In c (surviving cfg (_transform_coordinates cfg data)))
      by (rewrite Hs; now left).
    apply surviving_In in Hc as [Hstart Hhit].
    assert (Hlt : (c < 10)%nat).
    { pose proof (starting_paths_range cfg) as Hr. rewrite Forall_forall in Hr.
      rewrite <- pp_length. now apply Hr. }
    assert (Htrue : path_hit (half_width_robot cfg) pp (_transform_coordinates cfg data) c
                    = true).
    { apply path_hit_iff. exists row, (0, 0).
      split; [assumption|]. split; [now apply origin_in_corridor|assumption]. }
    congruence. }
  split; [exact first_sample_origin|]. split.
  - intros cfg data row Hin Hd. unfold process_snapshot. rewrite process_array_eq.
    eexists. split; [reflexivity|]. cbn [valid_paths lidar_string].
    rewrite (Hnone cfg data row Hin Hd). split; reflexivity.
  - intros cfg st data row Hin Hd.
    destruct (process_state cfg st data) as [st' [Hp [_ [Hv Hl]]]].
    rewrite (Hnone cfg data row Hin Hd) in Hv, Hl.
    exists st'. split; [exact Hp|]. split; [exact Hv|exact Hl].
Qed.

(** ** Single readings under the default configuration *)

(** Bring the argument of the sine and of the cosine to the value [v]. *)
Ltac trig_at v :=
  repeat match goal with
  | |- context [sin ?a] => lazymatch a with v => fail | _ => replace a with v by lra end
  | |- context [cos ?a] => lazymatch a with v => fail | _ => replace a with v by lra end
  end.

Lemma reading_behind :
  transform_reading default_config (180, 0.5) = Some (0, -0.5, -180, 0.5).
Proof.
  unfold transform_reading, robot_angle.
  cbn [fst snd default_config max_relevant_distance sensor_mounting_angle
       angles_blanked reflection].
  cmp_R. trig_at 0. rewrite sin_0, cos_0. repeat f_equal; lra.
Qed.

Lemma reading_ahead_near :
  transform_reading default_config (0, 0.1) = Some (0, 0.1, 0, 0.1).
Proof.
  unfold transform_reading, robot_angle.
  cbn [fst snd default_config max_relevant_distance sensor_mounting_angle
       angles_blanked reflection].
  cmp_R. trig_at PI. rewrite sin_PI, cos_PI. repeat f_equal; lra.
Qed.

(** C10 at one reading 0.1 m from the sensor. *)
Lemma C10_point_at_origin_blocks_all_witness :
  In (0, 0.1, 0, 0.1) (_transform_coordinates default_config [(0, 0.1)]) /\
  distance (row_x (0, 0.1, 0, 0.1)) (row_y (0, 0.1, 0, 0.1)) (0, 0)
    < half_width_robot default_config /\
  exists snap,
    process_snapshot default_config [(0, 0.1)] = Some snap /\
    valid_paths snap = [] /\
    lidar_string snap = surrounded_message.
Proof.
  assert (Hin : In (0, 0.1, 0, 0.1) (_transform_coordinates default_config [(0, 0.1)])).
  { cbn [_transform_coordinates]. rewrite reading_ahead_near. now left. }
  assert (Hd : distance (row_x (0, 0.1, 0, 0.1)) (row_y (0, 0.1, 0, 0.1)) (0, 0)
               < half_width_robot default_config).
  { unfold distance. apply sqrt_lt_bound. cbn. lra. }
  split; [exact Hin|]. split; [exact Hd|].
  exact (proj1 (proj2 C10_point_at_origin_blocks_all) default_config [(0, 0.1)] _ Hin Hd).
Defined.

Ltac unfold_corridor :=
  cbv [pp curves pairs_of quadratic nth Bezier.evaluate_multi Bezier.nodes
       Bezier.degree s_vals Np.linspace seq map combine Bezier.casteljau
       Bezier.lerp_adjacent hd Nat.sub];
  simpl Z.of_nat.

(** The samples of corridors 0 to 8 have a second coordinate that is not
    negative. *)
Lemma forward_corridors (c : nat) :
  (c < 9)%nat -> Forall (fun point => 0 <= snd point) (nth c pp []).
Proof.
  intros Hc. do 9 (destruct c as [|c]; [unfold_corridor; repeat constructor; cbn [snd]; lra|]).
  lia.
Qed.

Lemma behind_misses_forward (c : nat) :
  (c < 9)%nat -> hit_by 0.20 pp 0 (-0.5) c = false.
Proof.
  intros Hc. unfold hit_by. apply not_true_is_false. intros Hex.
  apply existsb_exists in Hex as [point [Hin Hclose]].
  pose proof (forward_corridors c Hc) as Hall. rewrite Forall_forall in Hall.
  specialize (Hall point Hin). apply too_close_squares in Hclose as [_ Hsq].
  nra.
Qed.

Lemma behind_hits_retreat : hit_by 0.20 pp 0 (-0.5) 9 = true.
Proof.
  unfold hit_by. apply existsb_exists.
  exists (nth 4 (nth 9 pp []) (0, 0)). split.
  - apply nth_In. rewrite pp_samples; lia.
  - apply too_close_squares. unfold_corridor. cbn [fst snd]. split; lra.
Qed.

Lemma behind_survivors :
  surviving default_config [(0, -0.5, -180, 0.5)] = [0; 1; 2; 3; 4; 5; 6; 7; 8]%nat.
Proof.
  unfold surviving.
  rewrite (filter_ext_in _ (fun c => negb (c =? 9)%nat)); [reflexivity|].
  intros c Hc. f_equal. unfold path_hit. cbn [existsb row_x row_y fst snd].
  rewrite orb_false_r. cbn [half_width_robot default_config].
  destruct (Nat.eqb_spec c 9) as [->|Hne].
  - apply behind_hits_retreat.
  - apply behind_misses_forward.
    assert (c < 10)%nat; [|lia].
    pose proof (starting_paths_range default_config) as Hr.
    rewrite Forall_forall, pp_length in Hr. now apply Hr.
Qed.

Lemma behind_array :
  _transform_coordinates default_config [(180, 0.5)] = [(0, -0.5, -180, 0.5)].
Proof. cbn [_transform_coordinates]. now rewrite reading_behind. Qed.

Lemma reading_behind_snapshot :
  process_snapshot default_config [(180, 0.5)] =
  Some {| raw_scan := [(0, -0.5, -180, 0.5)];
          lidar_string :=
            "The safe movement directions are: {'turn left', 'move forwards', 'turn right', 'stand still'}. ";
          valid_paths := [0; 1; 2; 3; 4; 5; 6; 7; 8]%nat |}.
Proof.
  unfold process_snapshot. rewrite behind_array.
  rewrite process_array_eq, behind_survivors. reflexivity.
Qed.

(** C6, as the specification states it, fails: the reading at sensor angle
    180 lands behind the robot, corridor 4 stays in [valid_paths] and the
    string lists "move forwards". *)
Lemma C6_counterexample :
  exists snap,
    process_snapshot default_config [(180, 0.5)] = Some snap /\
    raw_scan snap = [(0, -0.5, -180, 0.5)] /\
    In 4%nat (valid_paths snap) /\
    lists (lidar_string snap) "move forwards" = true.
Proof.
  unfold process_snapshot. rewrite behind_array.
  rewrite process_array_eq, behind_survivors.
  eexists. split; [reflexivity|]. cbn [raw_scan valid_paths lidar_string].
  split; [reflexivity|]. split; [simpl; tauto|reflexivity].
Qed.

(** C6, amended: under the default configuration the single reading at
    sensor angle 180 and 0.5 m becomes the point (0, -0.5) at robot angle
    -180; corridor 9 is pruned and corridors 0 to 8 survive; the string
    lists "turn left", "move forwards", "turn right" and "stand still", and
    not "move back". *)
Theorem C6_reading_at_180_prunes_retreat :
  exists snap,
    process_snapshot default_config [(180, 0.5)] = Some snap /\
    raw_scan snap = [(0, -0.5, -180, 0.5)] /\
    valid_paths snap = [0; 1; 2; 3; 4; 5; 6; 7; 8]%nat /\
    lidar_string snap =
      "The safe movement directions are: {'turn left', 'move forwards', 'turn right', 'stand still'}. "%string /\
    lists (lidar_string snap) "turn left" = true /\
    lists (lidar_string snap) "move forwards" = true /\
    lists (lidar_string snap) "turn right" = true /\
    lists (lidar_string snap) "move back" = false.
Proof.
  eexists. split; [exact reading_behind_snapshot|]. repeat split.
Qed.

(** ** Publication beside concurrent readers *)

(** C9, as the specification states it, fails: a pass on an empty batch
    completes, the next pass is on one reading behind the robot, and a
    reader that calls [valid_paths] before the three assignments of that
    pass and [lidar_string] after them gets all ten corridors together with
    a string without "move back", a pair that no single pass produces. *)
Lemma C9_counterexample :
  exists st1 snap2,
    _process default_config initial_state [] = Some st1 /\
    process_snapshot default_config [(180, 0.5)] = Some snap2 /\
    seen (run (publishing st1 snap2) [GetValidPaths; Assign; Assign; Assign; GetLidarString]) =
      [GotValidPaths (Some all_paths); GotLidarString (Some without_move_back)] /\
    forall data snap,
      process_snapshot default_config data = Some snap ->
      ~ (valid_paths snap = all_paths /\ lidar_string snap = without_move_back).
Proof.
  destruct (process_state default_config initial_state []) as [st1 [Hp [_ [Hv _]]]].
  simpl _transform_coordinates in Hv. rewrite transform_nil_surviving in Hv.
  exists st1. eexists. split; [exact Hp|].
  split; [exact reading_behind_snapshot|]. split.
  - cbn. rewrite Hv. reflexivity.
  - intros data snap Hs [H1 H2]. unfold process_snapshot in Hs.
    rewrite process_array_eq in Hs. injection Hs as <-.
    cbn [valid_paths lidar_string] in *. rewrite H1 in H2. discriminate H2.
Qed.

Lemma reads_keep_state (schedule : list Event) :
  forallb is_read schedule = true ->
  forall sys : System,
    Forall (reads_from (shared sys)) (seen sys) ->
    shared (run sys schedule) = shared sys /\
    Forall (reads_from (shared sys)) (seen (run sys schedule)).
Proof.
  unfold run. induction schedule as [|e rest IH]; intros Hr sys Hseen; simpl.
  - now split.
  - simpl in Hr. apply andb_true_iff in Hr as [He Hrest].
    assert (Hstep : shared (step sys e) = shared sys /\
                    Forall (reads_from (shared sys)) (seen (step sys e))).
    { destruct e; [discriminate| | |]; simpl; (split; [reflexivity|]);
        apply Forall_app; (split; [assumption|]); repeat constructor. }
    destruct Hstep as [Hs Hf]. rewrite <- Hs in Hf.
    destruct (IH Hrest (step sys e) Hf) as [H1 H2].
    rewrite Hs in H1, H2. now split.
Qed.

(** C9, amended: a pass assigns the three fields one after another, first
    [raw_scan], then [lidar_string], then [valid_paths], with no lock; after
    the third assignment the state is the one [_process] returns and its
    three fields are those of this pass, and a reader whose calls meet no
    assignment gets the fields of one state. Calls that interleave with the
    assignments are not covered. *)
Theorem C9_published_field_by_field :
  (forall (cfg : Config) (st : State) (data : list (R * R)),
      exists snap st',
        process_snapshot cfg data = Some snap /\
        _process cfg st data = Some st' /\
        shared (run (publishing st snap) [Assign; Assign; Assign]) = st' /\
        pending (run (publishing st snap) [Assign; Assign; Assign]) = [] /\
        _raw_scan st' = Some (raw_scan snap) /\
        _lidar_string st' = Some (lidar_string snap) /\
        _valid_paths st' = Some (valid_paths snap)) /\
  (forall (st : State) (snap : Snapshot),
      shared (run (publishing st snap) [Assign]) =
        {| _raw_scan := Some (raw_scan snap); _lidar_string := _lidar_string st;
           _valid_paths := _valid_paths st;
           angles := angles st; angles_final := angles_final st |} /\
      shared (run (publishing st snap) [Assign; Assign]) =
        {| _raw_scan := Some (raw_scan snap); _lidar_string := Some (lidar_string snap);
           _valid_paths := _valid_paths st;
           angles := angles st; angles_final := angles_final st |}) /\
  (forall (sys : System) (schedule : list Event),
      forallb is_read schedule = true ->
      Forall (reads_from (shared sys)) (seen sys) ->
      shared (run sys schedule) = shared sys /\
      Forall (reads_from (shared sys)) (seen (run sys schedule))).
Proof.
  split; [|split].
  - intros cfg st data. unfold _process, process_snapshot.
    rewrite process_array_eq. eexists. eexists.
    split; [reflexivity|]. split; [reflexivity|]. repeat split.
  - intros st snap. split; reflexivity.
  - intros sys schedule Hr Hseen. now apply reads_keep_state.
Qed.

(** C9, amended, at a reader that calls the three properties while no pass
    is running. *)
Lemma C9_published_field_by_field_witness :
  forallb is_read [GetRawScan; GetLidarString; GetValidPaths] = true /\
  Forall (reads_from initial_state) [] /\
  shared (run {| shared := initial_state; pending := []; seen := [] |}
              [GetRawScan; GetLidarString; GetValidPaths]) = initial_state /\
  Forall (reads_from initial_state)
    (seen (run {| shared := initial_state; pending := []; seen := [] |}
               [GetRawScan; GetLidarString; GetValidPaths])).
Proof.
  assert (H1 : forallb is_read [GetRawScan; GetLidarString; GetValidPaths] = true)
    by reflexivity.
  assert (H2 : Forall (reads_from initial_state) []) by constructor.
  split; [exact H1|]. split; [exact H2|].
  exact (proj2 (proj2 C9_published_field_by_field)
           {| shared := initial_state; pending := []; seen := [] |}
           [GetRawScan; GetLidarString; GetValidPaths] H1 H2).
Defined.

(** * Further properties *)

(** ** [get_dimensions] *)

(** X1: on the nested list with the given number of items at each level
    [get_dimensions] returns these numbers up to the first zero; so it
    returns them all when none is zero. It looks at the first item of a
    list only, and gives the empty shape for a value that is not a list. *)
Theorem X1_get_dimensions_shape :
  (forall dims, get_dimensions (nested dims) = through_first_zero dims) /\
  (forall dims, forallb (fun n => 0 <? n)%nat dims = true ->
                get_dimensions (nested dims) = dims) /\
  (forall first others,
      get_dimensions (PyList (first :: others)) =
      S (List.length others) :: get_dimensions first) /\
  get_dimensions PyOther = [] /\
  get_dimensions (PyList []) = [0%nat].
Proof.
  assert (Shape : forall dims, get_dimensions (nested dims) = through_first_zero dims).
  { induction dims as [|n rest IH]; [reflexivity|].
    destruct n as [|n]; [reflexivity|].
    cbn [nested repeat get_dimensions through_first_zero].
    rewrite IH. f_equal. cbn [List.length]. now rewrite repeat_length. }
  split; [exact Shape|]. split; [|repeat split].
  intros dims Hpos. rewrite Shape.
  induction dims as [|n rest IH]; [reflexivity|].
  cbn [forallb] in Hpos. apply andb_true_iff in Hpos as [Hn Hrest].
  destruct n as [|n]; [discriminate|].
  cbn [through_first_zero]. now rewrite IH.
Qed.

(** X1 at a list of two rows of three items. *)
Lemma X1_get_dimensions_shape_witness :
  forallb (fun n => 0 <? n)%nat [2; 3]%nat = true /\
  get_dimensions (nested [2; 3]%nat) = [2; 3]%nat.
Proof.
  assert (H : forallb (fun n => 0 <? n)%nat [2; 3]%nat = true) by reflexivity.
  split; [exact H|].
  exact (proj1 (proj2 X1_get_dimensions_shape) [2; 3]%nat H).
Defined.

(** ** The buckets of [_categorize_paths] *)

Lemma buckets_of (ppl : list nat) :
  fst (_categorize_paths ppl) =
  {| turn_left := filter (fun p => p <? 4)%nat ppl;
     advance := filter (fun p => p =? 4)%nat ppl;
     turn_right := filter (fun p => (4 <? p) && (p <? 9))%nat ppl;
     retreat := filter (fun p => p =? 9)%nat ppl |}.
Proof. unfold _categorize_paths. cbn [fst]. now rewrite categorize_fold. Qed.

Lemma four_filters_length (l : list nat) :
  (List.length (filter (fun p => p <? 4) l) +
   List.length (filter (fun p => p =? 4) l) +
   List.length (filter (fun p => (4 <? p) && (p <? 9)) l) +
   List.length (filter (fun p => p =? 9) l) =
   List.length (filter (fun p => p <=? 9) l))%nat.
Proof.
  induction l as [|p t IH]; [reflexivity|]. cbn [filter].
  destruct (Nat.ltb_spec p 4), (Nat.eqb_spec p 4), (Nat.ltb_spec 4 p),
    (Nat.ltb_spec p 9), (Nat.eqb_spec p 9), (Nat.leb_spec p 9);
    cbn [andb List.length]; lia.
Qed.

(** X2: the four buckets hold the ids below 4, the id 4, the ids 5 to 8 and
    the id 9, each in the order of the input and as often as the input has
    them; an id above 9 goes to no bucket; the second result is the input
    list. So the buckets together have as many entries as the input has
    ids up to 9. *)
Theorem X2_buckets_partition :
  forall ppl : list nat,
    turn_left (fst (_categorize_paths ppl)) = filter (fun p => p <? 4)%nat ppl /\
    advance (fst (_categorize_paths ppl)) = filter (fun p => p =? 4)%nat ppl /\
    turn_right (fst (_categorize_paths ppl)) =
      filter (fun p => (4 <? p) && (p <? 9))%nat ppl /\
    retreat (fst (_categorize_paths ppl)) = filter (fun p => p =? 9)%nat ppl /\
    snd (_categorize_paths ppl) = ppl /\
    (List.length (turn_left (fst (_categorize_paths ppl))) +
     List.length (advance (fst (_categorize_paths ppl))) +
     List.length (turn_right (fst (_categorize_paths ppl))) +
     List.length (retreat (fst (_categorize_paths ppl))) =
     List.length (filter (fun p => p <=? 9) ppl))%nat.
Proof.
  intros ppl. rewrite buckets_of. cbn [turn_left advance turn_right retreat].
  repeat split. apply four_filters_length.
Qed.

(** ** The string of the general branch *)

Lemma filter_nonempty {A : Type} (f : A -> bool) (l : list A) :
  (0 <? List.length (filter f l))%nat = existsb f l.
Proof.
  induction l as [|a t IH]; [reflexivity|]. cbn [filter existsb].
  destruct (f a); [reflexivity|exact IH].
Qed.

Lemma general_string (cfg : Config) (ppl : list nat) :
  use_zenoh cfg = false -> ppl <> [] ->
  _generate_movement_string cfg (fst (_categorize_paths ppl)) ppl =
  (add_if (existsb (fun p => p =? 9)%nat ppl)
     (add_if (existsb (fun p => (4 <? p) && (p <? 9))%nat ppl)
        (add_if (existsb (fun p => p =? 4)%nat ppl)
           (add_if (existsb (fun p => p <? 4)%nat ppl)
              "The safe movement directions are: {" "'turn left', ")
           "'move forwards', ")
        "'turn right', ")
     "'move back', " ++ "'stand still'}. ")%string.
Proof.
  intros Hz Hne. unfold _generate_movement_string. rewrite Hz, buckets_of.
  cbn [turn_left advance turn_right retreat]. rewrite !filter_nonempty.
  destruct ppl as [|p t]; [congruence|]. reflexivity.
Qed.

Lemma general_string_lists (cfg : Config) (ppl : list nat) :
  use_zenoh cfg = false -> ppl <> [] ->
  let s := _generate_movement_string cfg (fst (_categorize_paths ppl)) ppl in
  lists s "turn left" = existsb (fun p => p <? 4)%nat ppl /\
  lists s "move forwards" = existsb (fun p => p =? 4)%nat ppl /\
  lists s "turn right" = existsb (fun p => (4 <? p) && (p <? 9))%nat ppl /\
  lists s "move back" = existsb (fun p => p =? 9)%nat ppl /\
  lists s "stand still" = true.
Proof.
  intros Hz Hne s. subst s. rewrite (general_string cfg ppl Hz Hne).
  destruct (existsb (fun p => p =? 9)%nat ppl),
    (existsb (fun p => (4 <? p) && (p <? 9))%nat ppl),
    (existsb (fun p => p =? 4)%nat ppl),
    (existsb (fun p => p <? 4)%nat ppl); repeat split.
Qed.

(** X3: without [use_zenoh] and for a non-empty list of paths, the string
    lists "turn left" exactly when an id below 4 is left, "move forwards"
    exactly when 4 is left, "turn right" exactly when an id from 5 to 8 is
    left and "move back" exactly when 9 is left; it always lists "stand
    still". *)
Theorem X3_general_string_lists_buckets :
  forall (cfg : Config) (ppl : list nat),
    use_zenoh cfg = false -> ppl <> [] ->
    let s := _generate_movement_string cfg (fst (_categorize_paths ppl)) ppl in
    lists s "turn left" = existsb (fun p => p <? 4)%nat ppl /\
    lists s "move forwards" = existsb (fun p => p =? 4)%nat ppl /\
    lists s "turn right" = existsb (fun p => (4 <? p) && (p <? 9))%nat ppl /\
    lists s "move back" = existsb (fun p => p =? 9)%nat ppl /\
    lists s "stand still" = true.
Proof.
  intros cfg ppl Hz Hne s. subst s. rewrite (general_string cfg ppl Hz Hne).
  destruct (existsb (fun p => p =? 9)%nat ppl),
    (existsb (fun p => (4 <? p) && (p <? 9))%nat ppl),
    (existsb (fun p => p =? 4)%nat ppl),
    (existsb (fun p => p <? 4)%nat ppl); repeat split.
Qed.

(** X3 at the paths 2 and 9. *)
Lemma X3_general_string_lists_buckets_witness :
  use_zenoh default_config = false /\ [2; 9]%nat <> [] /\
  let s := _generate_movement_string default_config
             (fst (_categorize_paths [2; 9]%nat)) [2; 9]%nat in
  lists s "turn left" = existsb (fun p => p <? 4)%nat [2; 9]%nat /\
  lists s "move forwards" = existsb (fun p => p =? 4)%nat [2; 9]%nat /\
  lists s "turn right" = existsb (fun p => (4 <? p) && (p <? 9))%nat [2; 9]%nat /\
  lists s "move back" = existsb (fun p => p =? 9)%nat [2; 9]%nat /\
  lists s "stand still" = true.
Proof.
  assert (Hz : use_zenoh default_config = false) by reflexivity.
  assert (Hne : [2; 9]%nat <> []) by discriminate.
  split; [exact Hz|]. split; [exact Hne|].
  exact (X3_general_string_lists_buckets default_config [2; 9]%nat Hz Hne).
Defined.

(** ** [get_movement_safety_check] *)

Lemma validate_at_least_one (l : list nat) :
  validate_movement_direction l 1 = (0 <? List.length l)%nat.
Proof.
  unfold validate_movement_direction. destruct l as [|a t]; [reflexivity|].
  cbn [List.length]. apply Z.leb_le. lia.
Qed.

Lemma validate_no_minimum (l : list nat) (min_paths : Z) :
  (min_paths <= 0)%Z -> validate_movement_direction l min_paths = true.
Proof. intros H. unfold validate_movement_direction. apply Z.leb_le. lia. Qed.

Lemma safety_check_buckets (ppl : list nat) :
  let b := fst (_categorize_paths ppl) in
  get_movement_safety_check b "turn left" 1 = existsb (fun p => p <? 4)%nat ppl /\
  get_movement_safety_check b "move forwards" 1 = existsb (fun p => p =? 4)%nat ppl /\
  get_movement_safety_check b "turn right" 1 =
    existsb (fun p => (4 <? p) && (p <? 9))%nat ppl /\
  get_movement_safety_check b "move back" 1 = existsb (fun p => p =? 9)%nat ppl.
Proof.
  intros b. subst b. rewrite buckets_of. unfold get_movement_safety_check.
  cbn [String.eqb Ascii.eqb Bool.eqb orb turn_left advance turn_right retreat].
  rewrite !validate_at_least_one, !filter_nonempty. repeat split.
Qed.

(** X4: the check answers for the bucket that the direction names, with
    "advance" and "move forwards" naming one bucket and "retreat" and "move
    back" another; any other direction is refused whatever the buckets hold;
    a minimum of zero or less accepts every named direction, even on empty
    buckets; with the default minimum of 1 and the buckets of
    [_categorize_paths] a direction passes exactly when an id of its range
    is in the list. *)
Theorem X4_safety_check_by_direction :
  (forall (b : Buckets) (direction : string) (min_paths : Z),
      direction <> "turn left"%string -> direction <> "turn right"%string ->
      direction <> "advance"%string -> direction <> "move forwards"%string ->
      direction <> "retreat"%string -> direction <> "move back"%string ->
      get_movement_safety_check b direction min_paths = false) /\
  (forall (b : Buckets) (min_paths : Z),
      get_movement_safety_check b "advance" min_paths =
        get_movement_safety_check b "move forwards" min_paths /\
      get_movement_safety_check b "retreat" min_paths =
        get_movement_safety_check b "move back" min_paths) /\
  (forall (b : Buckets) (min_paths : Z),
      (min_paths <= 0)%Z ->
      get_movement_safety_check b "turn left" min_paths = true /\
      get_movement_safety_check b "turn right" min_paths = true /\
      get_movement_safety_check b "move forwards" min_paths = true /\
      get_movement_safety_check b "move back" min_paths = true) /\
  (forall ppl : list nat,
      let b := fst (_categorize_paths ppl) in
      get_movement_safety_check b "turn left" 1 = existsb (fun p => p <? 4)%nat ppl /\
      get_movement_safety_check b "move forwards" 1 = existsb (fun p => p =? 4)%nat ppl /\
      get_movement_safety_check b "turn right" 1 =
        existsb (fun p => (4 <? p) && (p <? 9))%nat ppl /\
      get_movement_safety_check b "move back" 1 = existsb (fun p => p =? 9)%nat ppl).
Proof.
  split; [|split; [|split]].
  - intros b direction min_paths H1 H2 H3 H4 H5 H6.
    unfold get_movement_safety_check.
    apply String.eqb_neq in H1, H2, H3, H4, H5, H6.
    now rewrite H1, H2, H3, H4, H5, H6.
  - intros b min_paths. split; reflexivity.
  - intros b min_paths Hm. unfold get_movement_safety_check.
    cbn [String.eqb Ascii.eqb Bool.eqb orb].
    rewrite !validate_no_minimum by assumption. repeat split.
  - exact safety_check_buckets.
Qed.

(** X4 at the direction "stand still" and at the minimum 0 on empty
    buckets. *)
Lemma X4_safety_check_by_direction_witness :
  get_movement_safety_check no_buckets "stand still" 1 = false /\
  (0 <= 0)%Z /\
  get_movement_safety_check no_buckets "turn left" 0 = true /\
  get_movement_safety_check no_buckets "turn right" 0 = true /\
  get_movement_safety_check no_buckets "move forwards" 0 = true /\
  get_movement_safety_check no_buckets "move back" 0 = true.
Proof.
  split.
  - apply (proj1 X4_safety_check_by_direction no_buckets "stand still"%string 1%Z);
      discriminate.
  - assert (H : (0 <= 0)%Z) by lia.
    split; [exact H|].
    exact (proj1 (proj2 (proj2 X4_safety_check_by_direction)) no_buckets 0%Z H).
Defined.

Lemma snapshot_fields (cfg : Config) (array : list Row) (snap : Snapshot) :
  process_array cfg array = Some snap ->
  raw_scan snap = sorted_array array /\
  valid_paths snap = surviving cfg array /\
  lidar_string snap =
    _generate_movement_string cfg
      (fst (_categorize_paths (surviving cfg array))) (surviving cfg array).
Proof.
  intros H. rewrite process_array_eq in H. injection H as <-. repeat split.
Qed.

(** X5: without [use_zenoh] the string and the safety check agree: after a
    pass that leaves some corridor, [lidar_string] lists a direction
    exactly when [get_movement_safety_check] accepts it on the buckets of
    [valid_paths]. *)
Theorem X5_string_agrees_with_safety_check :
  forall (cfg : Config) (array : list Row) (snap : Snapshot),
    use_zenoh cfg = false ->
    process_array cfg array = Some snap ->
    valid_paths snap <> [] ->
    let b := fst (_categorize_paths (valid_paths snap)) in
    lists (lidar_string snap) "turn left" = get_movement_safety_check b "turn left" 1 /\
    lists (lidar_string snap) "move forwards" =
      get_movement_safety_check b "move forwards" 1 /\
    lists (lidar_string snap) "turn right" = get_movement_safety_check b "turn right" 1 /\
    lists (lidar_string snap) "move back" = get_movement_safety_check b "move back" 1.
Proof.
  intros cfg array snap Hz Hp Hne b. subst b.
  destruct (snapshot_fields cfg array snap Hp) as [_ [Hv Hl]].
  rewrite Hl, Hv in *.
  destruct (general_string_lists cfg _ Hz Hne) as [H1 [H2 [H3 [H4 _]]]].
  destruct (safety_check_buckets (surviving cfg array)) as [K1 [K2 [K3 K4]]].
  cbv zeta in *.
  rewrite H1, H2, H3, H4, K1, K2, K3, K4. repeat split.
Qed.

(** X5 at the empty array under the default configuration. *)
Lemma X5_string_agrees_with_safety_check_witness :
  use_zenoh default_config = false /\
  exists snap,
    process_array default_config [] = Some snap /\
    valid_paths snap <> [] /\
    let b := fst (_categorize_paths (valid_paths snap)) in
    lists (lidar_string snap) "turn left" = get_movement_safety_check b "turn left" 1 /\
    lists (lidar_string snap) "move forwards" =
      get_movement_safety_check b "move forwards" 1 /\
    lists (lidar_string snap) "turn right" = get_movement_safety_check b "turn right" 1 /\
    lists (lidar_string snap) "move back" = get_movement_safety_check b "move back" 1.
Proof.
  assert (Hz : use_zenoh default_config = false) by reflexivity.
  assert (Hp : process_array default_config [] =
               Some {| raw_scan := [];
                       lidar_string :=
                         _generate_movement_string default_config
                           (fst (_categorize_paths all_paths)) all_paths;
                       valid_paths := all_paths |}) by reflexivity.
  assert (Hne : all_paths <> []) by discriminate.
  split; [exact Hz|]. eexists. split; [exact Hp|]. split; [exact Hne|].
  exact (X5_string_agrees_with_safety_check default_config [] _ Hz Hp Hne).
Defined.

(** ** The angle in the robot frame *)



(** ** The rows of the transformed array *)











(** ** The published array *)

Lemma insert_by_sorted {A : Type} (key : A -> R) (a : A) (l : list A) :
  StronglySorted (fun u v => key u <= key v) l ->
  StronglySorted (fun u v => key u <= key v) (Np.insert_by key a l).
Proof.
  induction 1 as [|b t Hs IH Hall]; simpl.
  - repeat constructor.
  - destruct (Rle_b (key a) (key b)) eqn:Hab.
    + apply Rle_b_true_iff in Hab. constructor; [now constructor|].
      constructor; [assumption|].
      rewrite Forall_forall in *. intros c Hc. specialize (Hall c Hc). lra.
    + assert (Hba : key b <= key a).
      { unfold Rle_b in Hab. destruct (Rle_dec (key a) (key b)); [discriminate|lra]. }
      constructor; [assumption|].
      rewrite Forall_forall in *. intros c Hc.
      apply (Permutation_in _ (insert_by_perm key a t)) in Hc.
      destruct Hc as [<-|Hc]; [assumption|now apply Hall].
Qed.

Lemma sort_by_sorted {A : Type} (key : A -> R) (l : list A) :
  StronglySorted (fun u v => key u <= key v) (Np.sort_by key l).
Proof.
  induction l as [|a t IH]; simpl; [constructor|]. now apply insert_by_sorted.
Qed.

(** X9: the array that a pass publishes as [raw_scan] has the rows of the
    transformed array, each as often, in ascending order of the angle. *)
Theorem X9_raw_scan_sorted :
  forall (cfg : Config) (st : State) (data : list (R * R)),
    exists st' array,
      _process cfg st data = Some st' /\
      _raw_scan st' = Some array /\
      Permutation array (_transform_coordinates cfg data) /\
      StronglySorted (fun u v => row_angle u <= row_angle v) array.
Proof.
  intros cfg st data.
  destruct (process_state cfg st data) as [st' [Hp [Hr _]]].
  exists st'. eexists. split; [exact Hp|]. split; [exact Hr|].
  split; [apply sorted_array_perm|].
  unfold sorted_array. destruct (_transform_coordinates cfg data) as [|row rest].
  - constructor.
  - apply sort_by_sorted.
Qed.

(** ** The half width *)

Lemma no_hit_without_width (hw : R) (array : list Row) (c : nat) :
  hw <= 0 -> path_hit hw pp array c = false.
Proof.
  intros Hw. apply not_true_is_false. intros H.
  apply path_hit_iff in H as [row [point [_ [_ Hd]]]].
  unfold distance in Hd. apply sqrt_lt_bound in Hd. lra.
Qed.

(** X10: with a half width of zero or less the loops remove nothing: every
    batch leaves the whole starting set. *)
Theorem X10_no_width_no_pruning :
  forall (cfg : Config) (st : State) (data : list (R * R)),
    half_width_robot cfg <= 0 ->
    exists st',
      _process cfg st data = Some st' /\
      _valid_paths st' = Some (starting_paths cfg).
Proof.
  intros cfg st data Hw.
  destruct (process_state cfg st data) as [st' [Hp [_ [Hv _]]]].
  exists st'. split; [exact Hp|]. rewrite Hv. f_equal.
  unfold surviving. apply filter_all. intros c _.
  now rewrite no_hit_without_width.
Qed.

(** X10 at a reading 0.1 m ahead of the robot. *)
Lemma X10_no_width_no_pruning_witness :
  half_width_robot zero_width_config <= 0 /\
  exists st',
    _process zero_width_config initial_state [(0, 0.1)] = Some st' /\
    _valid_paths st' = Some (starting_paths zero_width_config).
Proof.
  assert (H : half_width_robot zero_width_config <= 0) by (simpl; lra).
  split; [exact H|].
  exact (X10_no_width_no_pruning zero_width_config initial_state [(0, 0.1)] H).
Defined.

Lemma path_hit_wider (hw1 hw2 : R) (array : list Row) (c : nat) :
  hw1 <= hw2 -> path_hit hw1 pp array c = true -> path_hit hw2 pp array c = true.
Proof.
  intros Hw H. apply path_hit_iff in H as [row [point [Hr [Hp Hd]]]].
  apply path_hit_iff. exists row, point. split; [assumption|]. split; [assumption|lra].
Qed.

(** X11: a larger half width never leaves more corridors: for two
    configurations with the same [simple_paths], the corridors left under
    the larger half width are among those left under the smaller one, on
    every array. *)
Theorem X11_wider_robot_fewer_paths :
  forall (cfg1 cfg2 : Config) (array : list Row),
    simple_paths cfg1 = simple_paths cfg2 ->
    half_width_robot cfg1 <= half_width_robot cfg2 ->
    exists s1 s2,
      process_array cfg1 array = Some s1 /\
      process_array cfg2 array = Some s2 /\
      incl (valid_paths s2) (valid_paths s1).
Proof.
  intros cfg1 cfg2 array Hs Hw. rewrite !process_array_eq.
  eexists. eexists. split; [reflexivity|]. split; [reflexivity|].
  cbn [valid_paths]. intros c Hc.
  apply surviving_In in Hc as [Hstart Hhit]. apply surviving_In.
  split; [unfold starting_paths in *; now rewrite Hs|].
  apply not_true_is_false. intros H.
  apply (path_hit_wider _ _ _ _ Hw) in H. congruence.
Qed.

(** X11 at the default half width and at none, on one row ahead. *)
Lemma X11_wider_robot_fewer_paths_witness :
  simple_paths zero_width_config = simple_paths default_config /\
  half_width_robot zero_width_config <= half_width_robot default_config /\
  exists s1 s2,
    process_array zero_width_config [(0, 0.5, 0, 0.5)] = Some s1 /\
    process_array default_config [(0, 0.5, 0, 0.5)] = Some s2 /\
    incl (valid_paths s2) (valid_paths s1).
Proof.
  assert (Hs : simple_paths zero_width_config = simple_paths default_config)
    by reflexivity.
  assert (Hw : half_width_robot zero_width_config <= half_width_robot default_config)
    by (simpl; lra).
  split; [exact Hs|]. split; [exact Hw|].
  exact (X11_wider_robot_fewer_paths zero_width_config default_config _ Hs Hw).
Defined.

(** ** Two arrays in one pass *)

(** X12: a pass over two arrays put together leaves the corridors that a
    pass over the first and a pass over the second both leave, in the order
    of the first. *)
Theorem X12_joint_arrays_intersect :
  forall (cfg : Config) (a1 a2 : list Row),
    exists s1 s2 s12,
      process_array cfg a1 = Some s1 /\
      process_array cfg a2 = Some s2 /\
      process_array cfg (a1 ++ a2) = Some s12 /\
      valid_paths s12 =
        filter (fun c => existsb (Nat.eqb c) (valid_paths s2)) (valid_paths s1).
Proof.
  intros cfg a1 a2. rewrite !process_array_eq.
  eexists. eexists. eexists.
  split; [reflexivity|]. split; [reflexivity|]. split; [reflexivity|].
  cbn [valid_paths]. unfold surviving at 1 3. rewrite filter_filter.
  apply filter_ext_in. intros c Hc. rewrite path_hit_app, negb_orb. f_equal.
  destruct (path_hit (half_width_robot cfg) pp a2 c) eqn:Hh; cbn [negb].
  - symmetry. apply not_true_is_false. intros Hex.
    apply existsb_exists in Hex as [c' [Hin Heq]]. apply Nat.eqb_eq in Heq. subst c'.
    apply surviving_In in Hin. destruct Hin. congruence.
  - symmetry. apply existsb_exists. exists c. split; [|apply Nat.eqb_refl].
    apply surviving_In. split; assumption.
Qed.

(** ** The static copy of the transform *)

(** X13: [transform_coordinates_static], called with the three settings of
    a provider, returns the array that [_transform_coordinates] of this
    provider returns. *)
Theorem X13_static_transform_agrees :
  forall (cfg : Config) (data : list (R * R)),
    transform_coordinates_static data (max_relevant_distance cfg)
      (sensor_mounting_angle cfg) (angles_blanked cfg) =
    _transform_coordinates cfg data.
Proof.
  intros cfg data. induction data as [|reading rest IH]; [reflexivity|].
  cbn [transform_coordinates_static _transform_coordinates]. rewrite IH.
  unfold transform_reading, robot_angle. cbv zeta.
  destruct (Rgt_b (snd reading) (max_relevant_distance cfg)); [reflexivity|].
  match goal with |- context [reflection ?b ?a] => destruct (reflection b a) end;
    reflexivity.
Qed.

(** ** Left and right *)

(** Compare two lists of concrete points, coordinate by coordinate. *)
Ltac points_eq :=
  repeat (apply (f_equal2 cons); [apply (f_equal2 pair); lra|]); reflexivity.

Lemma corridors_mirrored (c : nat) :
  (c <= 8)%nat ->
  nth (8 - c) pp [] = map (fun point => (- fst point, snd point)) (nth c pp []).
Proof.
  intros Hc.
  do 9 (destruct c as [|c];
        [cbn [Nat.sub]; unfold_corridor; cbn [fst snd]; points_eq|]).
  lia.
Qed.

Lemma retreat_mirrors_advance :
  nth 9 pp [] = map (fun point => (fst point, - snd point)) (nth 4 pp []).
Proof. unfold_corridor. cbn [fst snd]. points_eq. Qed.

Lemma too_close_mirror_x (hw x y : R) (point : R * R) :
  too_close hw (- x) y (- fst point, snd point) = too_close hw x y point.
Proof.
  unfold too_close. cbn [fst snd]. do 2 f_equal. lra.
Qed.

Lemma too_close_mirror_y (hw x y : R) (point : R * R) :
  too_close hw x (- y) (fst point, - snd point) = too_close hw x y point.
Proof.
  unfold too_close. cbn [fst snd]. do 2 f_equal. lra.
Qed.

Lemma existsb_map {A B : Type} (f : B -> bool) (g : A -> B) (l : list A) :
  existsb f (map g l) = existsb (fun a => f (g a)) l.
Proof. induction l as [|a t IH]; simpl; [reflexivity|]. now rewrite IH. Qed.

Lemma existsb_ext {A : Type} (f g : A -> bool) (l : list A) :
  (forall a, f a = g a) -> existsb f l = existsb g l.
Proof. intros H. induction l as [|a t IH]; simpl; [reflexivity|]. now rewrite H, IH. Qed.

Lemma hit_by_mirror (hw x y : R) (c : nat) :
  (c <= 8)%nat -> hit_by hw pp (- x) y (8 - c) = hit_by hw pp x y c.
Proof.
  intros Hc. unfold hit_by. rewrite (corridors_mirrored c Hc), existsb_map.
  apply existsb_ext. intros point. apply too_close_mirror_x.
Qed.

Lemma path_hit_mirror (hw : R) (array : list Row) (c : nat) :
  (c <= 8)%nat ->
  path_hit hw pp (map mirror_row array) (8 - c) = path_hit hw pp array c.
Proof.
  intros Hc. unfold path_hit. rewrite existsb_map.
  apply existsb_ext. intros row. unfold mirror_row. cbn [row_x row_y fst snd].
  now apply hit_by_mirror.
Qed.

Lemma retreat_on_axis :
  nth 9 pp [] = map (fun point => (- fst point, snd point)) (nth 9 pp []).
Proof. unfold_corridor. cbn [fst snd]. points_eq. Qed.

Lemma path_hit_mirror_id (hw : R) (array : list Row) (c : nat) :
  (c < 10)%nat ->
  path_hit hw pp (map mirror_row array) (mirror_id c) = path_hit hw pp array c.
Proof.
  intros Hc. unfold mirror_id. destruct (Nat.leb_spec c 8) as [H8|H8].
  - now apply path_hit_mirror.
  - assert (c = 9%nat) as -> by lia.
    unfold path_hit. rewrite existsb_map. apply existsb_ext. intros row.
    unfold mirror_row, hit_by. cbn [row_x row_y fst snd].
    rewrite retreat_on_axis at 1. rewrite existsb_map.
    apply existsb_ext. intros point. apply too_close_mirror_x.
Qed.

Lemma mirror_id_involutive (c : nat) : mirror_id (mirror_id c) = c.
Proof.
  unfold mirror_id. destruct (Nat.leb_spec c 8) as [H|H].
  - destruct (Nat.leb_spec (8 - c) 8); lia.
  - destruct (Nat.leb_spec c 8); [lia|reflexivity].
Qed.

Lemma mirror_id_start (cfg : Config) (c : nat) :
  In c (starting_paths cfg) -> In (mirror_id c) (starting_paths cfg).
Proof.
  unfold starting_paths, all_paths. destruct (simple_paths cfg).
  - intros [<-|[]]. now left.
  - intros H. cbn [In] in H.
    repeat (destruct H as [<-|H]; [cbn; tauto|]). contradiction.
Qed.

(** X14: the corridors are symmetric about the forward axis, and the
    pruning with them: after the rows of an array are mirrored in that axis,
    a corridor is left exactly when the corridor on the other side was left
    before (0 with 8, 1 with 7, 2 with 6, 3 with 5; 4 and 9 with
    themselves). In the same way a point blocks corridor 9 exactly when the
    point mirrored in the other axis blocks corridor 4. *)
Theorem X14_left_right_symmetry :
  (forall (cfg : Config) (array : list Row),
      exists s sm,
        process_array cfg array = Some s /\
        process_array cfg (map mirror_row array) = Some sm /\
        forall c, In c (valid_paths sm) <-> In (mirror_id c) (valid_paths s)) /\
  (forall c, (c <= 8)%nat ->
      nth (8 - c) pp [] = map (fun point => (- fst point, snd point)) (nth c pp [])) /\
  (forall hw x y : R, hit_by hw pp x (- y) 9 = hit_by hw pp x y 4).
Proof.
  split; [|split; [exact corridors_mirrored|]].
  - intros cfg array. rewrite !process_array_eq.
    eexists. eexists. split; [reflexivity|]. split; [reflexivity|].
    cbn [valid_paths]. intros c. rewrite !surviving_In.
    assert (Hrange : forall k, In k (starting_paths cfg) -> (k < 10)%nat).
    { intros k Hk. pose proof (starting_paths_range cfg) as Hr.
      rewrite Forall_forall, pp_length in Hr. now apply Hr. }
    split; intros [Hin Hh].
    + split; [now apply mirror_id_start|].
      rewrite <- Hh. symmetry.
      rewrite <- (mirror_id_involutive c) at 1.
      apply path_hit_mirror_id. apply Hrange. now apply mirror_id_start.
    + assert (Hc : In c (starting_paths cfg)).
      { rewrite <- (mirror_id_involutive c). now apply mirror_id_start. }
      split; [exact Hc|].
      rewrite <- Hh. rewrite <- (mirror_id_involutive c) at 1.
      apply path_hit_mirror_id. now apply Hrange.
  - intros hw x y. unfold hit_by. rewrite retreat_mirrors_advance, existsb_map.
    apply existsb_ext. intros point. apply too_close_mirror_y.
Qed.

(** X14 at corridors 2 and 6. *)
Lemma X14_left_right_symmetry_witness :
  (2 <= 8)%nat /\
  nth (8 - 2) pp [] = map (fun point => (- fst point, snd point)) (nth 2 pp []).
Proof.
  assert (H : (2 <= 8)%nat) by lia.
  split; [exact H|].
  exact (proj1 (proj2 X14_left_right_symmetry) 2%nat H).
Defined.

(** ** The samples of a corridor *)

(** X15: for any three control points, the ten pairs that
    [_init_path_planning] keeps for the curve are the values of the
    quadratic Bezier polynomial at 0, 1/9, ..., 1 in both coordinates; the
    first pair is the first control point and the last pair is the last
    control point. *)
Theorem X15_samples_on_the_curve :
  forall x0 x1 x2 y0 y1 y2 : R,
    pairs_of (quadratic [x0; x1; x2] [y0; y1; y2]) =
      map (fun k => (bernstein2 x0 x1 x2 (IZR (Z.of_nat k) / 9),
                     bernstein2 y0 y1 y2 (IZR (Z.of_nat k) / 9)))
          (seq 0 10) /\
    hd_error (pairs_of (quadratic [x0; x1; x2] [y0; y1; y2])) = Some (x0, y0) /\
    last (pairs_of (quadratic [x0; x1; x2] [y0; y1; y2])) (0, 0) = (x2, y2).
Proof.
  intros x0 x1 x2 y0 y1 y2.
  cbv [pairs_of quadratic nth Bezier.evaluate_multi Bezier.nodes Bezier.degree
       s_vals Np.linspace seq map combine Bezier.casteljau Bezier.lerp_adjacent
       hd hd_error last Nat.sub bernstein2].
  simpl Z.of_nat.
  split; [points_eq|]. split.
  - f_equal. apply (f_equal2 pair); lra.
  - apply (f_equal2 pair); lra.
Qed.

(** ** [_preprocess_serial] *)





(** ** [_preprocess_zenoh] and the cache of angles *)

Lemma process_keeps_cache (cfg : Config) (st st' : State) (data : list (R * R)) :
  _process cfg st data = Some st' ->
  angles st' = angles st /\ angles_final st' = angles_final st.
Proof.
  unfold _process. destruct (process_snapshot cfg data) as [snap|]; [|discriminate].
  intros H. injection H as <-. split; reflexivity.
Qed.


Lemma zenoh_filled_cache (cfg : Config) (st : State) (scan : LaserScan)
    (a : R) (l final : list R) :
  angles st = Some (a :: l) -> angles_final st = Some final ->
  _preprocess_zenoh cfg st (Some scan) = _process cfg st (combine final (ranges scan)).
Proof.
  intros Ha Hf. unfold _preprocess_zenoh. rewrite Ha. cbn [is_falsy]. now rewrite Hf.
Qed.

(** The degrees that [_preprocess_zenoh] computes for an angle in radians. *)
Lemma degrees_eq (x : R) : 360.0 * (x + PI) / (2 * PI) = 180 + x * 180 / PI.
Proof.
  pose proof PI_RGT_0. replace 360.0 with 360 by lra. field. lra.
Qed.

(** X17: the angles are computed from the first scan that arrives and never
    again. While the cache is empty and the increment is not zero, a scan
    fills it with one angle in degrees for each step of the sweep, the
    second list in the reverse order of the first, so that the reading
    number [i] goes with the angle of the step number [n - 1 - i]; a zero
    increment raises. Once the cache holds angles, a scan is processed with
    them whatever its own angle fields are, and the cache stays as it is;
    the branch for a missing scan does not touch it either. *)
Theorem X17_angles_cached_once :
  (forall (cfg : Config) (st st' : State) (scan : LaserScan),
      is_falsy (angles st) = true ->
      angle_increment scan <> 0 ->
      _preprocess_zenoh cfg st (Some scan) = Some st' ->
      let n := Z.to_nat (Zceil ((angle_max scan - angle_min scan) / angle_increment scan)) in
      exists final,
        angles_final st' = Some final /\
        angles st' = Some (rev final) /\
        List.length final = n /\
        forall i, (i < n)%nat ->
          nth i final 0 =
          180 + (angle_min scan + IZR (Z.of_nat (n - 1 - i)) * angle_increment scan)
                * 180 / PI) /\
  (forall (cfg : Config) (st : State) (scan : LaserScan),
      is_falsy (angles st) = true ->
      angle_increment scan = 0 ->
      _preprocess_zenoh cfg st (Some scan) = None) /\
  (forall (cfg : Config) (st : State) (scan : LaserScan) (a : R) (l final : list R),
      angles st = Some (a :: l) -> angles_final st = Some final ->
      _preprocess_zenoh cfg st (Some scan) =
        _process cfg st (combine final (ranges scan)) /\
      forall st', _preprocess_zenoh cfg st (Some scan) = Some st' ->
                  angles st' = angles st /\ angles_final st' = angles_final st) /\
  (forall (cfg : Config) (st : State),
      exists st',
        _preprocess_zenoh cfg st None = Some st' /\
        angles st' = angles st /\ angles_final st' = angles_final st).
Proof.
  split; [|split; [|split]].
  - intros cfg st st' scan Hempty Hinc Hz n.
    unfold _preprocess_zenoh in Hz. rewrite Hempty in Hz. unfold Np.arange in Hz.
    destruct (Req_dec_T (angle_increment scan) 0) as [H0|_]; [contradiction|].
    cbn [angles_final] in Hz. apply process_keeps_cache in Hz as [Ha Hf].
    cbn [angles angles_final] in Ha, Hf.
    fold n in Ha, Hf.
    eexists. split; [exact Hf|]. split; [now rewrite rev_involutive|].
    split; [now rewrite length_rev, !length_map, length_seq|].
    intros i Hi.
    rewrite rev_nth by (rewrite !length_map, length_seq; exact Hi).
    rewrite !length_map, length_seq.
    replace (n - S i)%nat with (n - 1 - i)%nat by lia.
    set (f := fun x : R => 360.0 * (x + PI) / (2 * PI)).
    set (g := fun k : nat => angle_min scan + IZR (Z.of_nat k) * angle_increment scan).
    rewrite (nth_indep _ 0 (f (g 0%nat))) by (rewrite !length_map, length_seq; lia).
    rewrite map_nth, map_nth, seq_nth by lia.
    unfold f, g. cbn [Nat.add]. apply degrees_eq.
  - intros cfg st scan Hempty Hinc. unfold _preprocess_zenoh. rewrite Hempty.
    unfold Np.arange. destruct (Req_dec_T (angle_increment scan) 0); [reflexivity|].
    contradiction.
  - intros cfg st scan a l final Ha Hf.
    rewrite (zenoh_filled_cache cfg st scan a l final Ha Hf).
    split; [reflexivity|]. intros st' Hp. now apply process_keeps_cache in Hp.
  - intros cfg st. eexists. repeat split.
Qed.

Lemma filling_scan_returns (cfg : Config) (st : State) (scan : LaserScan) :
  is_falsy (angles st) = true -> angle_increment scan <> 0 ->
  exists st', _preprocess_zenoh cfg st (Some scan) = Some st'.
Proof.
  intros Hempty Hinc. unfold _preprocess_zenoh. rewrite Hempty.
  unfold Np.arange. destruct (Req_dec_T (angle_increment scan) 0); [contradiction|].
  cbn [angles_final]. match goal with |- context [_process cfg ?s ?d] =>
    destruct (process_state cfg s d) as [st' [Hp _]] end.
  now exists st'.
Qed.

(** X17 at the first scan, with a sweep of four steps, and at a scan with a
    zero increment, both on the state before any scan. *)
Lemma X17_angles_cached_once_witness :
  is_falsy (angles initial_state) = true /\
  angle_increment
    {| angle_min := 0; angle_max := 4; angle_increment := 1; ranges := [0.5] |} <> 0 /\
  (exists st',
      _preprocess_zenoh default_config initial_state
        (Some {| angle_min := 0; angle_max := 4; angle_increment := 1;
                 ranges := [0.5] |}) = Some st' /\
      let n := Z.to_nat (Zceil ((4 - 0) / 1)) in
      exists final,
        angles_final st' = Some final /\
        angles st' = Some (rev final) /\
        List.length final = n /\
        forall i, (i < n)%nat ->
          nth i final 0 = 180 + (0 + IZR (Z.of_nat (n - 1 - i)) * 1) * 180 / PI) /\
  angle_increment
    {| angle_min := 0; angle_max := 1; angle_increment := 0; ranges := [] |} = 0 /\
  _preprocess_zenoh default_config initial_state
    (Some {| angle_min := 0; angle_max := 1; angle_increment := 0; ranges := [] |}) = None.
Proof.
  assert (H1 : is_falsy (angles initial_state) = true) by reflexivity.
  assert (H2 : angle_increment
                 {| angle_min := 0; angle_max := 4; angle_increment := 1;
                    ranges := [0.5] |} <> 0) by (simpl; lra).
  assert (H3 : angle_increment
                 {| angle_min := 0; angle_max := 1; angle_increment := 0; ranges := [] |} = 0)
    by reflexivity.
  split; [exact H1|]. split; [exact H2|]. split; [|split; [exact H3|]].
  - destruct (filling_scan_returns default_config initial_state _ H1 H2) as [st' Hz].
    exists st'. split; [exact Hz|].
    exact (proj1 X17_angles_cached_once default_config initial_state st' _ H1 H2 Hz).
  - exact (proj1 (proj2 X17_angles_cached_once) default_config initial_state _ H1 H3).
Defined.

(** ** The loop of [_run] *)










